(** * Docling document processing service: model and properties

    Shallow embedding of [python-services/docling_service.py]:
    the [DoclingProcessor.process_document] method (plain-text path with its
    line chunker, external-loader path, catch-all error handler) and the
    [/process-document] upload endpoint with its temporary file. *)

From Stdlib Require Import String Ascii.
From stdpp Require Import gmap list fin_maps.

Local Open Scope nat_scope.

(** ** Python strings

    A Python [str] is a sequence of Unicode code points and [len] counts code
    points, so a string is a list of code points. *)

Definition char := N.
Definition str := list char.

(** String literals of the source, written as Rocq strings. *)
Fixpoint lit (s : string) : str :=
  match s with
  | EmptyString => []
  | String a s' => N_of_ascii a :: lit s'
  end.

Arguments lit : simpl never.

Definition nl : char := 10%N.

(** [str.isspace] per code point, the table [str.strip] consults
    (CPython's [_PyUnicode_IsWhitespace]). *)
Definition is_space (c : char) : bool :=
  ((9 <=? c) && (c <=? 13) || (28 <=? c) && (c <=? 32)
   || (c =? 133) || (c =? 160) || (c =? 5760)
   || (8192 <=? c) && (c <=? 8202)
   || (c =? 8232) || (c =? 8233) || (c =? 8239) || (c =? 8287)
   || (c =? 12288))%N.

Fixpoint lstrip (s : str) : str :=
  match s with
  | [] => []
  | c :: s' => if is_space c then lstrip s' else s
  end.

Definition rstrip (s : str) : str := rev (lstrip (rev s)).

(** [s.strip()] *)
Definition strip (s : str) : str := rstrip (lstrip s).

(** [s.split(sep)] for a one-character separator: never returns the empty
    list, and [''.split(sep)] is [['']]. *)
Fixpoint split (sep : char) (s : str) : list str :=
  match s with
  | [] => [[]]
  | c :: s' =>
      if (c =? sep)%N then [] :: split sep s'
      else match split sep s' with
           | l :: ls => (c :: l) :: ls
           | [] => [[c]]
           end
  end.

(** [sep.join(parts)] *)
Fixpoint join (sep : str) (parts : list str) : str :=
  match parts with
  | [] => []
  | [p] => p
  | p :: ps => p ++ sep ++ join sep ps
  end.

(** Truthiness of a string: [if s:] *)
Definition truthy (s : str) : bool :=
  match s with [] => false | _ :: _ => true end.

(** ** Metadata values and result records *)

(** The values the service stores under a metadata key; whatever else the
    loader attaches is kept by its JSON text. *)
Inductive value :=
| VInt (n : Z)
| VStr (s : str)
| VJson (repr : str).

#[global] Instance value_eq_dec : EqDecision value.
Proof. solve_decision. Defined.

(** [Dict[str, Any]] *)
Abbreviation metadata_t := (gmap str value).

(** An entry of [chunks]: a dict with the keys [chunk_id], [content] and
    [metadata]. *)
Record ChunkRecord := mkChunk {
  chunk_id : nat;
  content : str;
  chunk_metadata : metadata_t
}.

(** [class DocumentProcessingResult(BaseModel)] *)
Record DocumentProcessingResult := mkResult {
  success : bool;
  markdown_content : str;
  metadata : metadata_t;
  chunks : option (list ChunkRecord);
  error : option str
}.

(** ** The plain-text chunker (the loop of [process_document]) *)

Module Chunker.

(** The variables the loop updates. *)
Record loop_state := mkLoop {
  st_chunks : list ChunkRecord;   (* chunks *)
  current_chunk : str;
  st_chunk_id : nat               (* chunk_id *)
}.

(** [{"chunk_index": chunk_id, "source": file_path}] *)
Definition chunk_meta (file_path : str) (id : nat) : metadata_t :=
  <[lit "source" := VStr file_path]>
    (<[lit "chunk_index" := VInt (Z.of_nat id)]> ∅).

Definition chunk_entry (file_path : str) (id : nat) (buffer : str) : ChunkRecord :=
  {| chunk_id := id;
     content := strip buffer;
     chunk_metadata := chunk_meta file_path id |}.

(** [if current_chunk.strip(): chunks.append({...}); chunk_id += 1] *)
Definition flush (file_path : str) (st : loop_state) : loop_state :=
  if truthy (strip (current_chunk st)) then
    {| st_chunks :=
         st_chunks st ++ [chunk_entry file_path (st_chunk_id st) (current_chunk st)];
       current_chunk := current_chunk st;
       st_chunk_id := S (st_chunk_id st) |}
  else st.

(** One iteration of [for line in lines]. *)
Definition step (file_path : str) (st : loop_state) (line : str) : loop_state :=
  if 500 <? length (current_chunk st) + length line then
    let st' := flush file_path st in
    {| st_chunks := st_chunks st';
       current_chunk := line ++ [nl];
       st_chunk_id := st_chunk_id st' |}
  else
    {| st_chunks := st_chunks st;
       current_chunk := current_chunk st ++ line ++ [nl];
       st_chunk_id := st_chunk_id st |}.

Definition init : loop_state :=
  {| st_chunks := []; current_chunk := []; st_chunk_id := 0 |}.

(** The chunk list built for a [.txt] file with [export_type] "chunks": the
    loop, then the final append (the counter is not read after it). *)
Definition txt_chunks (file_path content : str) : list ChunkRecord :=
  let lines := split nl content in
  let st := fold_left (step file_path) lines init in
  st_chunks (flush file_path st).

End Chunker.

(** ** Exceptions

    An instance of [Exception], identified by what [str(e)] returns; a
    [raise] inside a [try] block is a [Raise] outcome. *)

Inductive exn := Exception (msg : str).

Definition exn_str (e : exn) : str := let 'Exception msg := e in msg.

Inductive outcome (A : Type) :=
| Ok (a : A)
| Raise (e : exn).
Arguments Ok {A} a.
Arguments Raise {A} e.

(** Sequencing of statements that may raise. *)
#[global] Instance outcome_bind : MBind outcome := λ A B k c,
  match c with
  | Ok a => k a
  | Raise e => Raise e
  end.

(** ** The environment of a call *)

Definition bytes := list Byte.byte.

(** [langchain_docling.loader.ExportType] *)
Inductive ExportType := MARKDOWN | DOC_CHUNKS.

(** A unit returned by the loader ([langchain_core] [Document]). *)
Record Document := mkDocument {
  page_content : str;
  doc_metadata : metadata_t
}.

(** What the service calls into: interpreter and library functions, the
    external loader, and the file system as the calls observe it. *)
Record World := mkWorld {
  str_lower : str → str;                       (* s.lower() *)
  path_suffix : str → str;                     (* Path(p).suffix *)
  docling_load : str → ExportType → outcome (list Document);
                                               (* DoclingLoader(...).load() *)
  decode_text : bytes → outcome str;           (* text-mode utf-8 read of stored bytes *)
  os_path_exists : str → bool;
  read_text : str → outcome str;               (* open(p, 'r', encoding='utf-8').read() *)
  os_path_getsize : str → outcome nat;
  tmp_create : str → outcome str;              (* name made by NamedTemporaryFile(suffix=...) *)
  write_error : str → bytes → option exn;      (* failure of write()/flush() *)
  unlink_error : str → option exn              (* the OS refusing os.unlink *)
}.

(** ** [DoclingProcessor.process_document] *)

Definition txt_metadata (export_type content : str) (file_size : nat) : metadata_t :=
  <[lit "file_size" := VInt (Z.of_nat file_size)]>
  (<[lit "total_length" := VInt (Z.of_nat (length content))]>
  (<[lit "file_type" := VStr (lit "txt")]>
  (<[lit "export_type" := VStr export_type]>
  (<[lit "processing_method" := VStr (lit "langchain_docling_txt")]> ∅)))).

(** [for i, doc in enumerate(docs): chunks.append({...})], counting from [i]. *)
Fixpoint doc_chunks (i : nat) (docs : list Document) : list ChunkRecord :=
  match docs with
  | [] => []
  | doc :: docs' =>
      {| chunk_id := i; content := page_content doc;
         chunk_metadata := doc_metadata doc |} :: doc_chunks (S i) docs'
  end.

(** [total_content += doc.page_content + "\n\n"] over the same loop. *)
Fixpoint total_content (docs : list Document) : str :=
  match docs with
  | [] => []
  | doc :: docs' => page_content doc ++ [nl; nl] ++ total_content docs'
  end.

(** [dict.update]: the keys of [new] win. *)
Definition dict_update (d new : metadata_t) : metadata_t := new ∪ d.

(** [ExportType.DOC_CHUNKS if export_type.lower() == "chunks" else
    ExportType.MARKDOWN] *)
Definition export_mode_of (w : World) (export_type : str) : ExportType :=
  if bool_decide (str_lower w export_type = lit "chunks")
  then DOC_CHUNKS else MARKDOWN.

(** The body of the [try] block. *)
Definition process_body (w : World) (file_path export_type : str)
  : outcome DocumentProcessingResult :=
  if negb (os_path_exists w file_path) then
    Raise (Exception (lit "File not found: " ++ file_path))
  else
    let file_extension := str_lower w (path_suffix w file_path) in
    if bool_decide (file_extension = lit ".txt") then
      content ← read_text w file_path;
      file_size ← os_path_getsize w file_path;
      let metadata := txt_metadata export_type content file_size in
      if bool_decide (str_lower w export_type = lit "chunks") then
        let chunks := Chunker.txt_chunks file_path content in
        Ok {| success := true;
              markdown_content := content;
              metadata :=
                <[lit "total_chunks" := VInt (Z.of_nat (length chunks))]> metadata;
              chunks := Some chunks;
              error := None |}
      else
        Ok {| success := true;
              markdown_content := content;
              metadata := metadata;
              chunks := None;
              error := None |}
    else
      let export_mode := export_mode_of w export_type in
      docs ← docling_load w file_path export_mode;
      match docs with
      | [] => Raise (Exception (lit "No documents were processed"))
      | doc0 :: _ =>
          match export_mode with
          | MARKDOWN =>
              let markdown_content := join [nl; nl] (map page_content docs) in
              let metadata :=
                dict_update (doc_metadata doc0)
                  (<[lit "total_length" := VInt (Z.of_nat (length markdown_content))]>
                  (<[lit "total_documents" := VInt (Z.of_nat (length docs))]>
                  (<[lit "export_type" := VStr (lit "markdown")]>
                  (<[lit "processing_method" := VStr (lit "langchain_docling")]> ∅)))) in
              Ok {| success := true;
                    markdown_content := markdown_content;
                    metadata := metadata;
                    chunks := None;
                    error := None |}
          | DOC_CHUNKS =>
              let chunks := doc_chunks 0 docs in
              let total := total_content docs in
              let combined_metadata : metadata_t :=
                <[lit "total_length" := VInt (Z.of_nat (length total))]>
                (<[lit "total_chunks" := VInt (Z.of_nat (length chunks))]>
                (<[lit "export_type" := VStr (lit "chunks")]>
                (<[lit "processing_method" := VStr (lit "langchain_docling")]> ∅))) in
              let combined_metadata :=
                if bool_decide (doc_metadata doc0 = ∅) then combined_metadata
                else dict_update combined_metadata (doc_metadata doc0) in
              Ok {| success := true;
                    markdown_content := strip total;
                    metadata := combined_metadata;
                    chunks := Some chunks;
                    error := None |}
          end
      end.

(** The [except Exception as e] handler. *)
Definition error_result (e : exn) : DocumentProcessingResult :=
  {| success := false;
     markdown_content := [];
     metadata := ∅;
     chunks := None;
     error := Some (exn_str e) |}.

Definition process_document (w : World) (file_path export_type : str)
  : DocumentProcessingResult :=
  match process_body w file_path export_type with
  | Ok result => result
  | Raise e => error_result e
  end.

(** ** The [/process-document] endpoint *)

(** The uploaded file: its name and what [await file.read()] gives. *)
Record UploadFile := mkUpload {
  filename : option str;
  upload_read : outcome bytes
}.

(** How a request ends: a result is returned, an [HTTPException] is raised,
    or another exception leaves the handler. *)
Inductive response :=
| Returned (result : DocumentProcessingResult)
| HTTPException (status_code : nat) (detail : str)
| Unhandled (e : exn).

Definition supported_formats : list str :=
  [lit ".pdf"; lit ".docx"; lit ".doc"; lit ".pptx"; lit ".html"; lit ".txt"].

(** The file system once [path] holds [data]. *)
Definition put_file (w : World) (path : str) (data : bytes) : World :=
  {| str_lower := str_lower w;
     path_suffix := path_suffix w;
     docling_load := docling_load w;
     decode_text := decode_text w;
     os_path_exists := λ q, if bool_decide (q = path) then true else os_path_exists w q;
     read_text := λ q, if bool_decide (q = path) then decode_text w data else read_text w q;
     os_path_getsize :=
       λ q, if bool_decide (q = path) then Ok (length data) else os_path_getsize w q;
     tmp_create := tmp_create w;
     write_error := write_error w;
     unlink_error := unlink_error w |}.

Definition no_such_file (path : str) : exn :=
  Exception (lit "[Errno 2] No such file or directory: " ++ path).

(** The file system once [path] is gone. *)
Definition remove_file (w : World) (path : str) : World :=
  {| str_lower := str_lower w;
     path_suffix := path_suffix w;
     docling_load := docling_load w;
     decode_text := decode_text w;
     os_path_exists := λ q, if bool_decide (q = path) then false else os_path_exists w q;
     read_text :=
       λ q, if bool_decide (q = path) then Raise (no_such_file path) else read_text w q;
     os_path_getsize :=
       λ q, if bool_decide (q = path) then Raise (no_such_file path)
            else os_path_getsize w q;
     tmp_create := tmp_create w;
     write_error := write_error w;
     unlink_error := unlink_error w |}.

(** [tempfile.NamedTemporaryFile(delete=False, suffix=...)]: an empty file
    under a new name. *)
Definition named_temporary_file (w : World) (suffix : str) : outcome (str * World) :=
  name ← tmp_create w suffix;
  Ok (name, put_file w name []).

(** [temp_file.write(content); temp_file.flush()] *)
Definition temp_write (w : World) (path : str) (data : bytes) : outcome World :=
  match write_error w path data with
  | Some e => Raise e
  | None => Ok (put_file w path data)
  end.

(** [os.unlink(path)]: raises when the path is missing or the OS refuses
    (for instance a file that is still open, on Windows). *)
Definition os_unlink (w : World) (path : str) : outcome World :=
  if os_path_exists w path then
    match unlink_error w path with
    | Some e => Raise e
    | None => Ok (remove_file w path)
    end
  else Raise (no_such_file path).

Definition unsupported_detail (file_extension : str) : str :=
  lit "Unsupported file format: " ++ file_extension
  ++ lit ". Supported formats: ['.pdf', '.docx', '.doc', '.pptx', '.html', '.txt']".

(** The handler, threading the file system through its steps. *)
Definition process_document_endpoint (w : World) (file : UploadFile) (export_type : str)
  : World * response :=
  match filename file with
  | None | Some [] => (w, HTTPException 400 (lit "No file provided"))
  | Some name =>
      let file_extension := str_lower w (path_suffix w name) in
      if bool_decide (file_extension ∈ supported_formats) then
        match named_temporary_file w file_extension with
        | Raise e => (w, Unhandled e)
        | Ok (temp_name, w1) =>
            (* try: ... except Exception as e: raise HTTPException(500, ...) *)
            let '(w2, resp) :=
              match upload_read file with
              | Raise e =>
                  (w1, HTTPException 500 (lit "Error processing document: " ++ exn_str e))
              | Ok content =>
                  match temp_write w1 temp_name content with
                  | Raise e =>
                      (w1, HTTPException 500
                             (lit "Error processing document: " ++ exn_str e))
                  | Ok w2 => (w2, Returned (process_document w2 temp_name export_type))
                  end
              end in
            (* finally: try: os.unlink(temp_file.name) except: pass *)
            let w3 := match os_unlink w2 temp_name with
                      | Ok w' => w'
                      | Raise _ => w2
                      end in
            (w3, resp)
        end
      else (w, HTTPException 400 (unsupported_detail file_extension))
  end.

(** ** Predicates on strings used in the statements *)

Definition all_space (s : str) : Prop := Forall (λ c, is_space c = true) s.

(** No whitespace at the front. *)
Definition no_lead (s : str) : Prop :=
  match s with
  | [] => True
  | c :: _ => is_space c = false
  end.

(** Neither leading nor trailing whitespace. *)
Definition trimmed (s : str) : Prop := no_lead s ∧ no_lead (rev s).

(** [s] stripped, unless nothing is left. *)
Definition keep_stripped (s : str) : option str :=
  let t := strip s in if truthy t then Some t else None.

(** The lines that remain when each line is stripped and blank lines are
    dropped. *)
Definition norm_lines (lines : list str) : list str := omap keep_stripped lines.

(** A line with something on it and no whitespace at either end. *)
Definition tidy (line : str) : Prop := line ≠ [] ∧ trimmed line.

(** ** The chunker as the specification describes it *)

Module Reference.

(** The text a buffer of lines holds: each line followed by a newline. *)
Definition text (buffer : list str) : str :=
  flat_map (λ line, line ++ [nl]) buffer.

(** Greedy accumulation: the buffer is flushed when adding the next line
    would take it over 500 characters, and what is left at the end is
    flushed too. Lines are never split. *)
Fixpoint greedy (buffer lines : list str) : list (list str) :=
  match lines with
  | [] => [buffer]
  | line :: rest =>
      if 500 <? length (text buffer) + length line
      then buffer :: greedy [line] rest
      else greedy (buffer ++ [line]) rest
  end.

Definition groups (lines : list str) : list (list str) := greedy [] lines.

(** A buffer is small when its text, final newline included, has at most 501
    characters; otherwise it is one long line. *)
Definition bounded (buffer : list str) : Prop :=
  length (text buffer) ≤ 501 ∨ ∃ line, buffer = [line] ∧ 500 < length line.

(** Ids handed out in order, counting up from [id]. *)
Fixpoint number (file_path : str) (id : nat) (contents : list str) : list ChunkRecord :=
  match contents with
  | [] => []
  | c :: rest =>
      {| chunk_id := id;
         content := c;
         chunk_metadata := Chunker.chunk_meta file_path id |}
      :: number file_path (S id) rest
  end.

(** Follows the spec's words: a flushed buffer becomes a chunk holding its
    lines, provided it is non-empty. *)
Definition spec_content (buffer : list str) : option str :=
  let s := join [nl] buffer in if truthy s then Some s else None.

Definition spec_chunks (file_path content : str) : list ChunkRecord :=
  number file_path 0 (omap spec_content (groups (split nl content))).

(** The same with the two amendments the code calls for: the content is
    whitespace-stripped, and a buffer with only whitespace gives no chunk
    and uses no id. *)
Definition stripped_content (buffer : list str) : option str :=
  keep_stripped (join [nl] buffer).

Definition stripped_chunks (file_path content : str) : list ChunkRecord :=
  number file_path 0 (omap stripped_content (groups (split nl content))).

End Reference.

(** ** What the statements below say about a call *)

(** The call reads the plain-text file [file_path], whose text is [text], in
    chunk mode, and returns the chunks [cs]. *)
Definition txt_chunk_call (w : World) (file_path export_type text : str)
    (cs : list ChunkRecord) : Prop :=
  str_lower w (path_suffix w file_path) = lit ".txt"
  ∧ str_lower w export_type = lit "chunks"
  ∧ read_text w file_path = Ok text
  ∧ chunks (process_document w file_path export_type) = Some cs.

(** The chunk contents put back together, separated by newlines. *)
Definition reassembled (cs : list ChunkRecord) : str :=
  join [nl] (map content cs).

(** The size limit as the specification words it: at most 500 characters,
    or the chunk is one of the [lines], longer than that. *)
Definition within_limit (lines : list str) (c : str) : Prop :=
  length c ≤ 500 ∨ ∃ line, line ∈ lines ∧ 500 < length line ∧ c = line.

(** The size limit the chunker keeps: the long line comes out stripped. *)
Definition within_limit_stripped (lines : list str) (c : str) : Prop :=
  length c ≤ 500 ∨ ∃ line, line ∈ lines ∧ 500 < length line ∧ c = strip line.

(** Exactly one of two conditions. *)
Definition exactly_one (P Q : Prop) : Prop := (P ∧ ¬ Q) ∨ (¬ P ∧ Q).

(** Where the [try] block of [process_document] can raise, and with what. *)
Inductive raised (w : World) (file_path export_type : str) : exn → Prop :=
| raised_missing :
    os_path_exists w file_path = false →
    raised w file_path export_type (Exception (lit "File not found: " ++ file_path))
| raised_read e :
    os_path_exists w file_path = true →
    str_lower w (path_suffix w file_path) = lit ".txt" →
    read_text w file_path = Raise e →
    raised w file_path export_type e
| raised_getsize text e :
    os_path_exists w file_path = true →
    str_lower w (path_suffix w file_path) = lit ".txt" →
    read_text w file_path = Ok text →
    os_path_getsize w file_path = Raise e →
    raised w file_path export_type e
| raised_loader e :
    os_path_exists w file_path = true →
    str_lower w (path_suffix w file_path) ≠ lit ".txt" →
    docling_load w file_path (export_mode_of w export_type) = Raise e →
    raised w file_path export_type e
| raised_no_documents :
    os_path_exists w file_path = true →
    str_lower w (path_suffix w file_path) ≠ lit ".txt" →
    docling_load w file_path (export_mode_of w export_type) = Ok [] →
    raised w file_path export_type (Exception (lit "No documents were processed")).

(** ** Concrete environments for the examples *)

Module Sample.

(** Lower-casing of the ASCII letters. *)
Definition ascii_lower (s : str) : str :=
  map (λ c, if ((65 <=? c) && (c <=? 90))%N then (c + 32)%N else c) s.

(** The part of a name from its last dot on. *)
Fixpoint last_dot_suffix (s : str) : str :=
  match s with
  | [] => []
  | c :: s' =>
      match last_dot_suffix s' with
      | [] => if (c =? 46)%N then s else []
      | t => t
      end
  end.

Definition x_line (n : nat) : str := repeat 120%N n.

(** A machine with one file at [path] holding [text], a loader that returns
    [docs] for every document, and an OS that lets files be removed unless
    [locked]. *)
Definition machine (path text : str) (docs : list Document) (locked : bool) : World :=
  {| str_lower := ascii_lower;
     path_suffix := last_dot_suffix;
     docling_load := λ _ _, Ok docs;
     decode_text := λ data, Ok (map Byte.to_N data);
     os_path_exists := λ q, bool_decide (q = path);
     read_text := λ q, if bool_decide (q = path) then Ok text else Raise (no_such_file q);
     os_path_getsize :=
       λ q, if bool_decide (q = path) then Ok (length text) else Raise (no_such_file q);
     tmp_create := λ suffix, Ok (lit "/tmp/tmpq7w2k" ++ suffix);
     write_error := λ _ _, None;
     unlink_error :=
       λ q, if locked then Some (Exception (lit "[WinError 32] file in use")) else None |}.

Definition notes : str := lit "/srv/notes.txt".
Definition report : str := lit "/srv/report.pdf".

(** Two tidy lines. *)
Definition two_lines : str := lit "alpha" ++ [nl] ++ lit "beta".

(** One line followed by a newline, as text files usually end. *)
Definition one_line_nl : str := lit "a" ++ [nl].

(** Only blanks. *)
Definition blanks : str := lit "   ".

(** A line of 501 characters after a blank. *)
Definition indented_long_line : str := lit " " ++ x_line 501.

(** An indented long line, then a short one. *)
Definition long_then_short : str := indented_long_line ++ [nl] ++ lit "ok".

Definition two_docs : list Document :=
  [ {| page_content := lit "Title"; doc_metadata := {[ lit "page" := VInt 1 ]} |};
    {| page_content := lit "Body"; doc_metadata := {[ lit "page" := VInt 2 ]} |} ].

(** An upload named [up.TXT] with three bytes. *)
Definition upload : UploadFile :=
  {| filename := Some (lit "up.TXT");
     upload_read := Ok [Byte.x68; Byte.x69; Byte.x0a] |}.

Definition upload_tmp : str := lit "/tmp/tmpq7w2k.txt".

End Sample.

(** ** Text-mode reading and what stripping does to lines *)

Definition cr : char := 13%N.

(** What [open(p, 'r', ...)] does to line endings when a file is read: with
    the default [newline=None], every "\r\n" and every lone "\r" comes out as
    "\n". *)
Fixpoint universal_newlines (s : str) : str :=
  match s with
  | [] => []
  | c :: s' =>
      if (c =? cr)%N then
        nl :: match s' with
              | c' :: s'' =>
                  if (c' =? nl)%N then universal_newlines s''
                  else universal_newlines s'
              | [] => []
              end
      else c :: universal_newlines s'
  end.

(** The file at [file_path] holds the characters [raw] (its bytes, decoded)
    and can be read: [f.read()] hands them over in text mode. *)
Definition holds_text (w : World) (file_path raw : str) : Prop :=
  read_text w file_path = Ok (universal_newlines raw).

(** What [strip] does to the front of a run of lines joined by newlines:
    whitespace-only lines at the front go, and the first line that stays
    loses its leading whitespace. *)
Fixpoint ltrim_lines (g : list str) : list str :=
  match g with
  | [] => []
  | l :: g' =>
      match lstrip l with
      | [] => ltrim_lines g'
      | t => t :: g'
      end
  end.

(** The same at the back. *)
Fixpoint rtrim_lines (g : list str) : list str :=
  match g with
  | [] => []
  | l :: g' =>
      match rtrim_lines g' with
      | [] => match rstrip l with [] => [] | t => [t] end
      | kept => l :: kept
      end
  end.

(** A run of lines trimmed at its two ends only: the lines in between are
    left as they are, indentation and blank lines included. *)
Definition trim_lines (g : list str) : list str := rtrim_lines (ltrim_lines g).

(** ** The remaining endpoints *)

(** The dictionary [GET /supported-formats] returns. *)
Record FormatsInfo := mkFormatsInfo {
  info_supported_formats : list str;
  info_export_types : list str;
  info_description : str
}.

Definition get_supported_formats : FormatsInfo :=
  {| info_supported_formats :=
       [lit ".pdf"; lit ".docx"; lit ".doc"; lit ".pptx"; lit ".html"; lit ".txt"];
     info_export_types := [lit "markdown"; lit "chunks"];
     info_description :=
       lit "LangChain Docling integration supports various document formats" |}.

(** The environment with another loader, everything else the same. *)
Definition with_loader (w : World)
    (load : str → ExportType → outcome (list Document)) : World :=
  {| str_lower := str_lower w;
     path_suffix := path_suffix w;
     docling_load := load;
     decode_text := decode_text w;
     os_path_exists := os_path_exists w;
     read_text := read_text w;
     os_path_getsize := os_path_getsize w;
     tmp_create := tmp_create w;
     write_error := write_error w;
     unlink_error := unlink_error w |}.

(** The environment with other file contents, everything else the same. *)
Definition with_files (w : World) (read : str → outcome str)
    (getsize : str → outcome nat) : World :=
  {| str_lower := str_lower w;
     path_suffix := path_suffix w;
     docling_load := docling_load w;
     decode_text := decode_text w;
     os_path_exists := os_path_exists w;
     read_text := read;
     os_path_getsize := getsize;
     tmp_create := tmp_create w;
     write_error := write_error w;
     unlink_error := unlink_error w |}.

(** The four fields [process_document] writes for a loader result, in
    markdown mode and in chunk mode. *)
Definition markdown_fields (n_docs total : nat) : metadata_t :=
  <[lit "total_length" := VInt (Z.of_nat total)]>
  (<[lit "total_documents" := VInt (Z.of_nat n_docs)]>
  (<[lit "export_type" := VStr (lit "markdown")]>
  (<[lit "processing_method" := VStr (lit "langchain_docling")]> ∅))).

Definition chunk_fields (n_chunks total : nat) : metadata_t :=
  <[lit "total_length" := VInt (Z.of_nat total)]>
  (<[lit "total_chunks" := VInt (Z.of_nat n_chunks)]>
  (<[lit "export_type" := VStr (lit "chunks")]>
  (<[lit "processing_method" := VStr (lit "langchain_docling")]> ∅))).

(** ** The start-up script ([start_docling_service.py]) *)

Module Startup.

(** What [response.json()] and the [data.get] lookups after it do. *)
Inductive body_result :=
| JsonObject                       (* a dict comes back *)
| JsonRequestException             (* a [RequestException] is raised *)
| JsonError (e : exn).             (* another exception is raised *)

(** What one [requests.get(url, timeout=5)] gives. *)
Inductive probe :=
| Answered (status_code : Z) (body : body_result)
| RequestException
| OtherException (e : exn).

(** What the script does to the outside, in order. *)
Inductive event :=
| Get
| Sleep (seconds : nat)
| Spawn
| Terminate.

(** How the body of the [for] loop leaves its [try] statement. *)
Inductive attempt_result :=
| Healthy
| Retry
| Escapes (e : exn).

(** [try: response = requests.get(...); if response.status_code == 200: ...
    return True; except requests.exceptions.RequestException: pass] *)
Definition attempt (p : probe) : attempt_result :=
  match p with
  | Answered status_code body =>
      if (status_code =? 200)%Z then
        match body with
        | JsonObject => Healthy
        | JsonRequestException => Retry
        | JsonError e => Escapes e
        end
      else Retry
  | RequestException => Retry
  | OtherException e => Escapes e
  end.

(** [for i in range(max_retries)], from iteration [i] with [remaining]
    iterations to go; [probe_at i] is what request number [i] gives. *)
Fixpoint poll (probe_at : nat → probe) (max_retries : Z) (i remaining : nat)
  : list event * outcome bool :=
  match remaining with
  | 0 => ([], Ok false)
  | S remaining' =>
      match attempt (probe_at i) with
      | Healthy => ([Get], Ok true)
      | Escapes e => ([Get], Raise e)
      | Retry =>
          let waited :=
            if (Z.of_nat i <? max_retries - 1)%Z then [Get; Sleep 2] else [Get] in
          let '(later, result) := poll probe_at max_retries (S i) remaining' in
          (waited ++ later, result)
      end
  end.

(** [check_service_health(port, max_retries)]: what it does and returns. *)
Definition check_service_health (probe_at : nat → probe) (max_retries : Z)
  : list event * outcome bool :=
  poll probe_at max_retries 0 (Z.to_nat max_retries).

(** The machine the script runs on. *)
Record Host := mkHost {
  dependencies_installed : bool;        (* the imports of check_dependencies *)
  port_setting : outcome Z;             (* int(os.getenv("DOCLING_SERVICE_PORT", 8001)) *)
  service_file_exists : bool;
  popen_error : option exn;             (* failure of subprocess.Popen *)
  probe_at : nat → probe
}.

(** [start_service()] *)
Definition start_service (h : Host) : list event * outcome bool :=
  if negb (dependencies_installed h) then ([], Ok false)
  else
    match port_setting h with
    | Raise e => ([], Raise e)
    | Ok port =>
        if negb (service_file_exists h) then ([], Ok false)
        else
          (* try: ... except Exception as e: return False *)
          match popen_error h with
          | Some e => ([], Ok false)
          | None =>
              let '(polled, result) := check_service_health (probe_at h) 30 in
              match result with
              | Ok true => (Spawn :: Sleep 3 :: polled, Ok true)
              | Ok false => (Spawn :: Sleep 3 :: polled ++ [Terminate], Ok false)
              | Raise e => (Spawn :: Sleep 3 :: polled, Ok false)
              end
          end
    end.

(** [k] requests without success, each followed by a pause of 2 seconds. *)
Fixpoint waits (k : nat) : list event :=
  match k with
  | 0 => []
  | S k' => Get :: Sleep 2 :: waits k'
  end.

(** The requests sent and the seconds slept in a run. *)
Fixpoint gets (trace : list event) : nat :=
  match trace with
  | [] => 0
  | Get :: rest => S (gets rest)
  | _ :: rest => gets rest
  end.

Fixpoint slept (trace : list event) : nat :=
  match trace with
  | [] => 0
  | Sleep seconds :: rest => seconds + slept rest
  | _ :: rest => slept rest
  end.

End Startup.

(** ** More environments for the examples *)

Module Fixture.

(** A loader that fails. *)
Definition broken_loader : str → ExportType → outcome (list Document) :=
  λ _ _, Raise (Exception (lit "conversion failed")).

(** An upload named [scan.PDF]. *)
Definition pdf_upload : UploadFile :=
  {| filename := Some (lit "scan.PDF");
     upload_read := Ok [Byte.x25; Byte.x50; Byte.x44; Byte.x46] |}.

Definition pdf_tmp : str := lit "/tmp/tmpq7w2k.pdf".

(** A text with Windows line endings, and the machine that holds it in
    [notes]: seven bytes on disk, read in text mode. *)
Definition crlf_text : str := lit "a" ++ [cr; nl] ++ lit "b" ++ [cr; nl] ++ lit "c".

Definition crlf_machine : World :=
  with_files (Sample.machine Sample.notes [] [] false)
    (λ q, if bool_decide (q = Sample.notes) then Ok (universal_newlines crlf_text)
          else Raise (no_such_file q))
    (λ q, if bool_decide (q = Sample.notes) then Ok 7 else Raise (no_such_file q)).

(** A text whose first line is indented. *)
Definition indented : str := lit "  a" ++ [nl] ++ lit "b".

(** A text with an indented line and a blank line in the middle. *)
Definition inner_space : str :=
  lit "a" ++ [nl] ++ lit "  b" ++ [nl] ++ [nl] ++ lit "c".

(** A machine whose text-mode decoding of ASCII bytes translates line
    endings, and an upload with Windows line endings. *)
Definition text_machine : World :=
  {| str_lower := Sample.ascii_lower;
     path_suffix := Sample.last_dot_suffix;
     docling_load := λ _ _, Ok [];
     decode_text := λ data, Ok (universal_newlines (map Byte.to_N data));
     os_path_exists := λ _, false;
     read_text := λ q, Raise (no_such_file q);
     os_path_getsize := λ q, Raise (no_such_file q);
     tmp_create := λ suffix, Ok (lit "/tmp/tmpq7w2k" ++ suffix);
     write_error := λ _ _, None;
     unlink_error := λ _, None |}.

Definition crlf_upload : UploadFile :=
  {| filename := Some (lit "win.txt");
     upload_read := Ok [Byte.x61; Byte.x0d; Byte.x0a; Byte.x62] |}.

(** An upload the client breaks off. *)
Definition broken_upload : UploadFile :=
  {| filename := Some (lit "notes.txt");
     upload_read := Raise (Exception (lit "client disconnected")) |}.

(** An upload with an extension the service does not take. *)
Definition exe_upload : UploadFile :=
  {| filename := Some (lit "setup.exe"); upload_read := Ok [] |}.

(** A unit whose metadata names two of the fields the service writes. *)
Definition tagged_doc : Document :=
  {| page_content := lit "Body";
     doc_metadata :=
       <[lit "total_chunks" := VInt 99]>
       (<[lit "export_type" := VStr (lit "custom")]>
       (<[lit "page" := VInt 1]> ∅)) |}.

(** A service that answers on the third request. *)
Definition up_on_third (i : nat) : Startup.probe :=
  if 2 <=? i then Startup.Answered 200 Startup.JsonObject
  else Startup.RequestException.

(** A service that never answers. *)
Definition never_up (i : nat) : Startup.probe := Startup.RequestException.

(** A server that answers 200 with a body that is not a JSON object. *)
Definition garbled (i : nat) : Startup.probe :=
  Startup.Answered 200 (Startup.JsonError (Exception (lit "not a dict"))).

Definition host (probes : nat → Startup.probe) : Startup.Host :=
  {| Startup.dependencies_installed := true;
     Startup.port_setting := Ok 8001%Z;
     Startup.service_file_exists := true;
     Startup.popen_error := None;
     Startup.probe_at := probes |}.

End Fixture.

(** * Properties *)

(** ** Whitespace stripping *)

Section Strip.

Lemma lstrip_no_lead s : no_lead (lstrip s).
Proof.
  induction s as [|c s IH]; simpl; [done|].
  destruct (is_space c) eqn:E; [done|]. by simpl.
Qed.

Lemma no_lead_lstrip s : no_lead s → lstrip s = s.
Proof. destruct s as [|c s]; simpl; [done|]. by intros ->. Qed.

Lemma lstrip_all_space_app ws s : all_space ws → lstrip (ws ++ s) = lstrip s.
Proof. induction 1 as [|c ws Hc _ IH]; simpl; [done|]. by rewrite Hc. Qed.

Lemma lstrip_decomp s : ∃ ws, all_space ws ∧ s = ws ++ lstrip s.
Proof.
  induction s as [|c s (ws & Hws & IH)]; simpl.
  - exists []. split; [constructor|done].
  - destruct (is_space c) eqn:E.
    + exists (c :: ws). split; [by constructor|]. simpl. by f_equal.
    + exists []. split; [constructor|done].
Qed.

Lemma no_lead_app_l a b : a ≠ [] → no_lead (a ++ b) → no_lead a.
Proof. by destruct a. Qed.

Lemma no_lead_app_r a b : a ≠ [] → no_lead a → no_lead (a ++ b).
Proof. by destruct a. Qed.

Lemma all_space_rev ws : all_space ws → all_space (rev ws).
Proof.
  unfold all_space. rewrite !Forall_forall. intros H c Hc.
  apply H. by apply list_elem_of_In, in_rev, list_elem_of_In.
Qed.

Lemma all_space_lstrip ws : all_space ws → lstrip ws = [].
Proof. induction 1 as [|c ws Hc _ IH]; simpl; [done|]. by rewrite Hc. Qed.

(** [strip] only removes whitespace, at both ends. *)
Lemma strip_decomp s :
  ∃ a b, all_space a ∧ all_space b ∧ s = a ++ strip s ++ b.
Proof.
  destruct (lstrip_decomp s) as (a & Ha & Hs).
  destruct (lstrip_decomp (rev (lstrip s))) as (b & Hb & Hr).
  exists a, (rev b). split; [done|]. split; [by apply all_space_rev|].
  unfold strip, rstrip. rewrite <- rev_app_distr, <- Hr, rev_involutive. done.
Qed.

Lemma strip_trimmed s : trimmed (strip s).
Proof.
  split.
  - destruct (lstrip_decomp (rev (lstrip s))) as (b & Hb & Hr).
    assert (Hu : lstrip s = strip s ++ rev b).
    { unfold strip, rstrip. rewrite <- rev_app_distr, <- Hr, rev_involutive. done. }
    destruct (strip s) as [|c t] eqn:E; [done|].
    apply (no_lead_app_l _ (rev b)); [done|]. rewrite <- Hu. apply lstrip_no_lead.
  - unfold strip, rstrip. rewrite rev_involutive. apply lstrip_no_lead.
Qed.

(** What is left between two runs of whitespace, when it is trimmed, is
    what [strip] returns. *)
Lemma strip_unique a m b :
  all_space a → all_space b → trimmed m → strip (a ++ m ++ b) = m.
Proof.
  intros Ha Hb [Hl Hr]. unfold strip, rstrip.
  rewrite lstrip_all_space_app by done.
  destruct m as [|c m].
  - simpl. by rewrite (all_space_lstrip b).
  - rewrite (no_lead_lstrip ((c :: m) ++ b)) by (by apply no_lead_app_r).
    rewrite rev_app_distr, lstrip_all_space_app by (by apply all_space_rev).
    rewrite no_lead_lstrip by done. apply rev_involutive.
Qed.

Lemma strip_app_space_r s ws : all_space ws → strip (s ++ ws) = strip s.
Proof.
  intros Hws. destruct (strip_decomp s) as (a & b & Ha & Hb & Hs).
  rewrite Hs at 1. rewrite <- !app_assoc.
  apply strip_unique; [done| |apply strip_trimmed].
  by apply Forall_app.
Qed.

Lemma strip_app_space_l ws s : all_space ws → strip (ws ++ s) = strip s.
Proof.
  intros Hws. destruct (strip_decomp s) as (a & b & Ha & Hb & Hs).
  rewrite Hs at 1. rewrite app_assoc.
  apply strip_unique; [|done|apply strip_trimmed].
  by apply Forall_app.
Qed.

Lemma strip_of_trimmed m : trimmed m → strip m = m.
Proof.
  intros Hm. rewrite <- (app_nil_r m) at 1.
  apply (strip_unique [] m []); [constructor|constructor|done].
Qed.

Lemma strip_idem s : strip (strip s) = strip s.
Proof. apply strip_of_trimmed, strip_trimmed. Qed.

Lemma strip_length s : length (strip s) ≤ length s.
Proof.
  destruct (strip_decomp s) as (a & b & _ & _ & Hs).
  rewrite Hs at 2. rewrite !length_app. lia.
Qed.

Lemma nl_is_space : is_space nl = true.
Proof. reflexivity. Qed.

(** A string that ends with a newline loses at least that character. *)
Lemma strip_snoc_nl_length s : length (strip (s ++ [nl])) ≤ length s.
Proof.
  rewrite strip_app_space_r; [apply strip_length|].
  repeat constructor.
Qed.

Lemma strip_nil_all_space s : strip s = [] → all_space s.
Proof.
  intros E. destruct (strip_decomp s) as (a & b & Ha & Hb & Hs).
  rewrite E in Hs. rewrite Hs. by apply Forall_app.
Qed.

Lemma all_space_strip s : all_space s → strip s = [].
Proof.
  intros Hs. change s with ([] ++ s). by rewrite strip_app_space_r.
Qed.

End Strip.

(** ** Splitting into lines and joining back *)

Section Lines.

Lemma split_nonempty s : split nl s ≠ [].
Proof.
  destruct s as [|c s]; simpl; [done|].
  destruct (c =? nl)%N; [done|]. by destruct (split nl s).
Qed.

Lemma split_cons_nl s : split nl (nl :: s) = [] :: split nl s.
Proof. reflexivity. Qed.

Lemma split_cons_other c s l ls :
  c ≠ nl → split nl s = l :: ls → split nl (c :: s) = (c :: l) :: ls.
Proof.
  intros Hc Hs. simpl. rewrite Hs.
  destruct (N.eqb_spec c nl); [done|reflexivity].
Qed.

(** [split] cuts [a ++ b] where it cuts [a] and [b], gluing the last line of
    [a] to the first line of [b]. *)
Lemma split_app a b :
  ∃ xs x y ys,
    split nl a = xs ++ [x] ∧ split nl b = y :: ys
    ∧ split nl (a ++ b) = xs ++ (x ++ y) :: ys.
Proof.
  induction a as [|c a (xs & x & y & ys & Ha & Hb & Hab)].
  - destruct (split nl b) as [|y ys] eqn:E; [by apply split_nonempty in E|].
    by exists [], [], y, ys.
  - destruct (N.eqb_spec c nl) as [->|Hc].
    + exists ([] :: xs), x, y, ys. simpl. by rewrite Ha, Hab.
    + destruct xs as [|x0 xs].
      * exists [], (c :: x), y, ys. split; [|split; [done|]].
        -- by apply split_cons_other.
        -- simpl app at 1. by apply split_cons_other.
      * exists ((c :: x0) :: xs), x, y, ys. split; [|split; [done|]].
        -- by apply split_cons_other.
        -- simpl app at 1. by apply split_cons_other.
Qed.

Lemma split_app_nl a b : split nl (a ++ nl :: b) = split nl a ++ split nl b.
Proof.
  destruct (split_app a (nl :: b)) as (xs & x & y & ys & Ha & Hb & Hab).
  rewrite split_cons_nl in Hb. injection Hb as <- <-.
  rewrite Hab, Ha, app_nil_r, <- app_assoc. done.
Qed.

Lemma split_no_nl s : Forall (λ l, nl ∉ l) (split nl s).
Proof.
  induction s as [|c s IH]; simpl.
  - repeat constructor. by intros ?%elem_of_nil.
  - destruct (N.eqb_spec c nl) as [->|Hc].
    + constructor; [by intros ?%elem_of_nil|done].
    + destruct (split nl s) as [|l ls].
      { repeat constructor. by intros [?|?%elem_of_nil]%elem_of_cons. }
      inversion_clear IH as [|? ? Hl Hls]. constructor; [|done].
      intros [?|?]%elem_of_cons; [by apply Hc|by apply Hl].
Qed.

Lemma split_line l : nl ∉ l → split nl l = [l].
Proof.
  induction l as [|c l IH]; [done|]. intros Hn.
  apply split_cons_other.
  - intros ->. apply Hn. by left.
  - apply IH. intros ?. apply Hn. by right.
Qed.

Lemma join_cons sep p q ps : join sep (p :: q :: ps) = p ++ sep ++ join sep (q :: ps).
Proof. reflexivity. Qed.

Lemma join_app sep xs ys :
  xs ≠ [] → ys ≠ [] → join sep (xs ++ ys) = join sep xs ++ sep ++ join sep ys.
Proof.
  intros Hx Hy. induction xs as [|x xs IH]; [done|].
  destruct xs as [|x' xs].
  - destruct ys; [done|]. reflexivity.
  - change ((x :: x' :: xs) ++ ys) with (x :: x' :: (xs ++ ys)).
    rewrite !join_cons. change (x' :: xs ++ ys) with ((x' :: xs) ++ ys).
    rewrite IH by done. by rewrite <- !app_assoc.
Qed.

(** Joining the lines of a text gives the text back. *)
Lemma join_split s : join [nl] (split nl s) = s.
Proof.
  induction s as [|c s IH]; [done|]. simpl split.
  destruct (N.eqb_spec c nl) as [->|Hc].
  - destruct (split nl s) as [|l ls] eqn:E; [by apply split_nonempty in E|].
    rewrite join_cons, IH. reflexivity.
  - destruct (split nl s) as [|l ls] eqn:E; [by apply split_nonempty in E|].
    destruct ls as [|l' ls]; [by rewrite <- IH|].
    rewrite join_cons. rewrite join_cons in IH. by rewrite <- IH.
Qed.

(** Lines without a newline are what [split] finds in their join. *)
Lemma split_join ls :
  ls ≠ [] → Forall (λ l, nl ∉ l) ls → split nl (join [nl] ls) = ls.
Proof.
  intros Hne Hls. induction Hls as [|l ls Hl Hls IH]; [done|].
  destruct ls as [|l' ls].
  - by apply split_line.
  - rewrite join_cons. change ([nl] ++ ?s) with (nl :: s).
    rewrite split_app_nl, split_line, IH; done.
Qed.

(** The text of a buffer is its lines joined, plus a final newline. *)
Lemma text_join buffer :
  buffer ≠ [] → Reference.text buffer = join [nl] buffer ++ [nl].
Proof.
  induction buffer as [|l ls IH]; [done|]. intros _.
  destruct ls as [|l' ls]; [by rewrite <- app_nil_r|].
  rewrite join_cons. unfold Reference.text in *. simpl flat_map in *.
  rewrite IH by done. by rewrite <- !app_assoc.
Qed.

Lemma text_app xs ys : Reference.text (xs ++ ys) = Reference.text xs ++ Reference.text ys.
Proof. unfold Reference.text. apply flat_map_app. Qed.

Lemma strip_text buffer : strip (Reference.text buffer) = strip (join [nl] buffer).
Proof.
  destruct buffer as [|l ls]; [done|].
  rewrite text_join by done. apply strip_app_space_r. repeat constructor.
Qed.

End Lines.

(** ** The loop computes the greedy grouping *)

Section Refinement.

Import Chunker Reference.

Lemma number_app p n xs ys :
  number p n (xs ++ ys) = number p n xs ++ number p (n + length xs) ys.
Proof.
  revert n. induction xs as [|x xs IH]; intros n; simpl.
  - by rewrite Nat.add_0_r.
  - rewrite IH. do 3 f_equal. lia.
Qed.

Lemma number_ids p n cs : map chunk_id (number p n cs) = seq n (length cs).
Proof. revert n. induction cs as [|c cs IH]; intros n; simpl; [done|]. by rewrite IH. Qed.

Lemma number_contents p n cs : map content (number p n cs) = cs.
Proof. revert n. induction cs as [|c cs IH]; intros n; simpl; [done|]. by rewrite IH. Qed.

Lemma number_length p n cs : length (number p n cs) = length cs.
Proof. revert n. induction cs as [|c cs IH]; intros n; simpl; [done|]. by rewrite IH. Qed.

(** What a flush appends, in terms of the buffer of lines. *)
Lemma flush_buffer p st buffer :
  current_chunk st = text buffer →
  st_chunks (flush p st)
    = st_chunks st ++ number p (st_chunk_id st) (omap stripped_content [buffer])
  ∧ st_chunk_id (flush p st)
    = st_chunk_id st + length (omap stripped_content [buffer]).
Proof.
  intros Hcur. unfold flush, stripped_content, keep_stripped. simpl omap.
  rewrite Hcur, strip_text.
  destruct (truthy (strip (join [nl] buffer))) eqn:E; simpl.
  - unfold chunk_entry. rewrite strip_text. split; [done|lia].
  - rewrite app_nil_r. split; [done|lia].
Qed.

(** Loop invariant: with the string buffer holding the text of [buffer], the
    rest of the loop and the final flush append the numbered contents of the
    greedy groups. *)
Lemma loop_greedy p lines : ∀ st buffer,
  current_chunk st = text buffer →
  st_chunks (flush p (fold_left (step p) lines st))
    = st_chunks st
      ++ number p (st_chunk_id st) (omap stripped_content (greedy buffer lines)).
Proof.
  induction lines as [|line rest IH]; intros st buffer Hcur.
  - simpl fold_left. simpl greedy. by apply flush_buffer.
  - simpl fold_left. simpl greedy. unfold step at 2. rewrite Hcur.
    destruct (500 <? length (text buffer) + length line) eqn:E.
    + destruct (flush_buffer p st buffer Hcur) as [Hout Hid].
      rewrite (IH _ [line]) by (simpl; by rewrite app_nil_r).
      simpl st_chunks. simpl st_chunk_id. rewrite Hout, Hid, <- app_assoc. f_equal.
      change (buffer :: greedy [line] rest) with ([buffer] ++ greedy [line] rest).
      by rewrite omap_app, number_app.
    + rewrite (IH _ (buffer ++ [line])); [done|].
      simpl. rewrite text_app. simpl. by rewrite app_nil_r.
Qed.

(** The loop of the source and the amended reference give the same chunks. *)
Lemma txt_chunks_stripped_chunks p content_ :
  txt_chunks p content_ = stripped_chunks p content_.
Proof.
  unfold txt_chunks, stripped_chunks, groups.
  by rewrite (loop_greedy p _ init []).
Qed.

(** The groups are the lines, in order, cut at some line boundaries. *)
Lemma greedy_concat lines : ∀ buffer, concat (greedy buffer lines) = buffer ++ lines.
Proof.
  induction lines as [|line rest IH]; intros buffer; simpl.
  - done.
  - destruct (500 <? _ + _); simpl; rewrite IH; [done|by rewrite <- app_assoc].
Qed.

Lemma greedy_bounded lines : ∀ buffer,
  bounded buffer → Forall bounded (greedy buffer lines).
Proof.
  induction lines as [|line rest IH]; intros buffer Hb; simpl.
  - by constructor.
  - destruct (500 <? length (text buffer) + length line) eqn:E.
    + constructor; [done|]. apply IH.
      destruct (decide (length line ≤ 500)) as [Hle|Hgt].
      * left. simpl. rewrite app_nil_r, length_app. simpl. lia.
      * right. exists line. split; [done|lia].
    + apply IH. left. apply Nat.ltb_ge in E.
      rewrite text_app, length_app. simpl. rewrite app_nil_r, length_app. simpl. lia.
Qed.

(** Lines that fit in one buffer are never flushed before the end. *)
Lemma greedy_single lines : ∀ buffer,
  length (text (buffer ++ lines)) ≤ 501 → greedy buffer lines = [buffer ++ lines].
Proof.
  induction lines as [|line rest IH]; intros buffer Hlen.
  - by rewrite app_nil_r.
  - simpl greedy.
    assert (Hfit : (500 <? length (text buffer) + length line) = false).
    { apply Nat.ltb_ge. rewrite text_app, length_app in Hlen.
      change (text (line :: rest)) with ((line ++ [nl]) ++ text rest) in Hlen.
      rewrite !length_app in Hlen. simpl in Hlen. lia. }
    rewrite Hfit, IH; rewrite <- app_assoc; done.
Qed.

Lemma text_split txt : text (split nl txt) = txt ++ [nl].
Proof. rewrite text_join by apply split_nonempty. by rewrite join_split. Qed.

Lemma groups_short txt :
  length txt ≤ 500 → groups (split nl txt) = [split nl txt].
Proof.
  intros Hlen. unfold groups. rewrite greedy_single; [done|].
  simpl app. rewrite text_split, length_app. simpl. lia.
Qed.

End Refinement.

(** ** The plain-text path of [process_document] *)

Section TxtPath.

Import Chunker Reference.

Ltac run_body :=
  unfold process_document, process_body, mbind, outcome_bind.

(** In chunk mode the chunks of a readable [.txt] file are those of the loop. *)
Lemma txt_chunk_call_loop w p et text cs :
  txt_chunk_call w p et text cs → cs = txt_chunks p text.
Proof.
  intros (Hext & Hmode & Hread & Hres). revert Hres. run_body.
  destruct (os_path_exists w p); simpl; [|done].
  rewrite Hext, Hread, Hmode, !bool_decide_eq_true_2 by done.
  destruct (os_path_getsize w p); simpl; [|done]. by intros [= <-].
Qed.

(** The result of a call on a readable [.txt] file. *)
Lemma process_txt w p et text size :
  os_path_exists w p = true →
  str_lower w (path_suffix w p) = lit ".txt" →
  read_text w p = Ok text →
  os_path_getsize w p = Ok size →
  process_document w p et =
    if bool_decide (str_lower w et = lit "chunks") then
      {| success := true; markdown_content := text;
         metadata := <[lit "total_chunks" := VInt (Z.of_nat (length (txt_chunks p text)))]>
                       (txt_metadata et text size);
         chunks := Some (txt_chunks p text); error := None |}
    else
      {| success := true; markdown_content := text;
         metadata := txt_metadata et text size; chunks := None; error := None |}.
Proof.
  intros Hex Hext Hread Hsize. run_body.
  rewrite Hex, Hext, Hread, Hsize, bool_decide_eq_true_2 by done. simpl.
  by destruct (bool_decide _).
Qed.

End TxtPath.

(** ** Chunk ids, contents and sizes *)

Section Chunks.

Import Chunker Reference.

Lemma Forall_content (P : str → Prop) (cs : list ChunkRecord) :
  Forall P (map content cs) → Forall (λ c, P (content c)) cs.
Proof. induction cs as [|c cs IH]; inversion 1; constructor; auto. Qed.

Lemma Forall_content_map (P : str → Prop) (cs : list ChunkRecord) :
  Forall (λ c, P (content c)) cs → Forall P (map content cs).
Proof. induction 1; constructor; auto. Qed.

Lemma keep_stripped_Some s t :
  keep_stripped s = Some t → t = strip s ∧ t ≠ [] ∧ trimmed t.
Proof.
  unfold keep_stripped. destruct (strip s) as [|c t'] eqn:E; simpl; [done|].
  intros [= <-]. split; [done|]. split; [done|]. rewrite <- E. apply strip_trimmed.
Qed.

Lemma stripped_content_text buffer :
  stripped_content buffer = keep_stripped (text buffer).
Proof. unfold stripped_content, keep_stripped. by rewrite strip_text. Qed.

Lemma omap_stripped_content_text (gs : list (list str)) :
  omap stripped_content gs = omap (λ buffer, keep_stripped (text buffer)) gs.
Proof.
  induction gs as [|g gs IH]; [done|].
  change (omap ?f (g :: gs)) with (from_option (λ y, y :: omap f gs) (omap f gs) (f g)).
  by rewrite stripped_content_text, IH.
Qed.

Lemma doc_chunks_ids docs : ∀ i, map chunk_id (doc_chunks i docs) = seq i (length docs).
Proof. induction docs as [|d docs IH]; intros i; simpl; [done|]. by rewrite IH. Qed.

Lemma doc_chunks_length docs : ∀ i, length (doc_chunks i docs) = length docs.
Proof. induction docs as [|d docs IH]; intros i; simpl; [done|]. by rewrite IH. Qed.

(** Chunks come from the line chunker or from wrapping the loader's units. *)
Lemma returned_chunks w p et cs :
  chunks (process_document w p et) = Some cs →
  (∃ text, cs = txt_chunks p text) ∨ (∃ docs, cs = doc_chunks 0 docs).
Proof.
  unfold process_document, process_body, mbind, outcome_bind.
  destruct (os_path_exists w p); simpl; [|done].
  destruct (bool_decide (str_lower w (path_suffix w p) = lit ".txt")).
  - destruct (read_text w p) as [text|]; [|done].
    destruct (os_path_getsize w p); [|done].
    destruct (bool_decide (str_lower w et = lit "chunks")); simpl; [|done].
    intros [= <-]. left. by exists text.
  - destruct (docling_load w p (export_mode_of w et)) as [docs|]; [|done].
    destruct docs as [|doc0 docs]; [done|].
    destruct (export_mode_of w et); simpl; [done|].
    intros [= <-]. right. by exists (doc0 :: docs).
Qed.

(** C5: whenever a call returns chunks, from a text file or from the
    external loader, their [chunk_id]s are 0, 1, 2, ... in order, without
    gaps or repeats. *)
Theorem chunk_ids_contiguous w p et cs :
  chunks (process_document w p et) = Some cs →
  map chunk_id cs = seq 0 (length cs).
Proof.
  intros [[text ->]|[docs ->]]%returned_chunks.
  - rewrite txt_chunks_stripped_chunks. unfold stripped_chunks.
    by rewrite number_ids, number_length.
  - by rewrite doc_chunks_ids, doc_chunks_length.
Qed.

(** C3 (amended): for a text file in chunk mode the chunks are those of the
    reference algorithm (greedy accumulation of whole lines, a flush when the
    next line would take the buffer over 500 characters, ids counting up from
    0, a final flush of what is left), where a flushed buffer is stripped of
    surrounding whitespace and gives a chunk, and uses an id, only if
    something other than whitespace is in it. *)
Theorem chunker_refines_stripped_reference w p et text cs :
  txt_chunk_call w p et text cs →
  cs = Reference.stripped_chunks p text.
Proof.
  intros ->%txt_chunk_call_loop. apply txt_chunks_stripped_chunks.
Qed.

(** C10: every chunk of a text file is non-empty and has no whitespace at
    either end; the contents are the stripped buffers, the whitespace-only
    ones left out, and the ids still run 0, 1, 2, ... *)
Theorem txt_chunks_nonblank_trimmed w p et txt cs :
  txt_chunk_call w p et txt cs →
  Forall (λ c, content c ≠ [] ∧ trimmed (content c)) cs
  ∧ map content cs
    = omap (λ buffer, keep_stripped (text buffer)) (groups (split nl txt))
  ∧ map chunk_id cs = seq 0 (length cs).
Proof.
  intros ->%txt_chunk_call_loop. rewrite txt_chunks_stripped_chunks.
  unfold stripped_chunks.
  rewrite number_contents, number_ids, number_length, omap_stripped_content_text.
  split; [|done].
  apply (Forall_content (λ t, t ≠ [] ∧ trimmed t)). rewrite number_contents.
  apply Forall_forall. intros t (g & _ & Hg)%list_elem_of_omap.
  by apply keep_stripped_Some in Hg as (_ & ? & ?).
Qed.

Lemma greedy_lines lines : ∀ buffer g line,
  g ∈ greedy buffer lines → line ∈ g → line ∈ buffer ++ lines.
Proof.
  intros buffer g line Hg Hl. rewrite <- greedy_concat.
  apply list_elem_of_In, in_concat. exists g. by rewrite <- !list_elem_of_In.
Qed.

Lemma stripped_content_within_limit lines g t :
  bounded g → (∀ line, line ∈ g → line ∈ lines) →
  stripped_content g = Some t → within_limit_stripped lines t.
Proof.
  intros Hb Hin Ht. rewrite stripped_content_text in Ht.
  apply keep_stripped_Some in Ht as (-> & Hne & _).
  destruct Hb as [Hlen|(line & -> & Hlong)].
  - left. destruct g as [|l g]; [done|].
    rewrite text_join in * by done. rewrite length_app in Hlen.
    change (length [nl]) with 1 in Hlen.
    pose proof (strip_snoc_nl_length (join [nl] (l :: g))). lia.
  - right. exists line. split; [apply Hin; by left|]. split; [done|].
    rewrite strip_text. done.
Qed.

(** C2 (amended): no chunk of a text file has more than 500 characters,
    unless it is a single source line longer than that, which then is a chunk
    by itself, stripped of its surrounding whitespace. *)
Theorem txt_chunks_within_limit w p et text cs :
  txt_chunk_call w p et text cs →
  Forall (λ c, within_limit_stripped (split nl text) (content c)) cs.
Proof.
  intros ->%txt_chunk_call_loop. rewrite txt_chunks_stripped_chunks.
  unfold stripped_chunks.
  apply (Forall_content (within_limit_stripped _)). rewrite number_contents.
  apply Forall_forall. intros t (g & Hg & Ht)%list_elem_of_omap.
  apply (stripped_content_within_limit _ g); [| |done].
  - pose proof (greedy_bounded (split nl text) []) as Hb.
    rewrite Forall_forall in Hb. apply Hb; [|done]. left. simpl. lia.
  - intros line Hl. by apply (greedy_lines (split nl text) [] g).
Qed.

End Chunks.

(** ** Putting the chunks back together *)

Section Reassembly.

Import Chunker Reference.

Lemma norm_lines_cons l ls :
  norm_lines (l :: ls)
  = match keep_stripped l with
    | Some t => t :: norm_lines ls
    | None => norm_lines ls
    end.
Proof. reflexivity. Qed.

Lemma norm_lines_app xs ys : norm_lines (xs ++ ys) = norm_lines xs ++ norm_lines ys.
Proof. apply omap_app. Qed.

Lemma keep_stripped_None s : keep_stripped s = None → strip s = [].
Proof. unfold keep_stripped. by destruct (strip s). Qed.

Lemma keep_stripped_all_space s : all_space s → keep_stripped s = None.
Proof. intros Hs. unfold keep_stripped. by rewrite all_space_strip. Qed.

Lemma norm_all_space ls : Forall all_space ls → norm_lines ls = [].
Proof.
  induction 1 as [|l ls Hl _ IH]; [done|].
  by rewrite norm_lines_cons, keep_stripped_all_space.
Qed.

Lemma split_all_space s : all_space s → Forall all_space (split nl s).
Proof.
  induction 1 as [|c s Hc Hs IH]; simpl.
  - repeat constructor.
  - destruct (c =? nl)%N.
    + constructor; [constructor|done].
    + destruct (split nl s) as [|l ls]; [repeat constructor; done|].
      inversion_clear IH. constructor; [by constructor|done].
Qed.

(** Whitespace in front of a text does not change its normalised lines. *)
Lemma norm_split_space_l a s :
  all_space a → norm_lines (split nl (a ++ s)) = norm_lines (split nl s).
Proof.
  intros Ha%split_all_space.
  destruct (split_app a s) as (xs & x & y & ys & Hsa & Hss & ->).
  rewrite Hsa in Ha. apply Forall_app in Ha as [Hxs Hx]. inversion_clear Hx as [|? ? Hx' _].
  rewrite Hss, norm_lines_app, (norm_all_space xs), !norm_lines_cons by done.
  unfold keep_stripped. by rewrite strip_app_space_l.
Qed.

(** Nor does whitespace after it. *)
Lemma norm_split_space_r s b :
  all_space b → norm_lines (split nl (s ++ b)) = norm_lines (split nl s).
Proof.
  intros Hb%split_all_space.
  destruct (split_app s b) as (xs & x & y & ys & -> & Hsb & ->).
  rewrite Hsb in Hb. inversion_clear Hb as [|? ? Hy Hys].
  rewrite !norm_lines_app, !norm_lines_cons, (norm_all_space ys) by done.
  unfold keep_stripped. by rewrite strip_app_space_r.
Qed.

Lemma norm_split_strip s :
  norm_lines (split nl (strip s)) = norm_lines (split nl s).
Proof.
  destruct (strip_decomp s) as (a & b & Ha & Hb & Hs).
  rewrite Hs at 2. by rewrite norm_split_space_l, norm_split_space_r.
Qed.

Lemma norm_split_join xs :
  norm_lines (split nl (join [nl] xs))
  = concat (map (λ x, norm_lines (split nl x)) xs).
Proof.
  induction xs as [|x xs IH]; [done|].
  destruct xs as [|x' xs].
  - simpl. by rewrite app_nil_r.
  - rewrite join_cons. change ([nl] ++ ?t) with (nl :: t).
    rewrite split_app_nl, norm_lines_app, IH. done.
Qed.

Lemma norm_group g :
  Forall (λ l, nl ∉ l) g → norm_lines (split nl (join [nl] g)) = norm_lines g.
Proof.
  intros Hg. destruct g as [|l g]; [done|]. by rewrite split_join.
Qed.

(** Up to stripping of lines and dropping of blank ones, the stripped
    contents of the groups hold the lines of the groups. *)
Lemma norm_reassembled gs :
  Forall (Forall (λ l, nl ∉ l)) gs →
  norm_lines (split nl (join [nl] (omap stripped_content gs)))
  = norm_lines (concat gs).
Proof.
  intros Hgs. rewrite norm_split_join.
  induction Hgs as [|g gs Hg _ IH]; [done|].
  change (omap stripped_content (g :: gs))
    with (match stripped_content g with
          | Some t => t :: omap stripped_content gs
          | None => omap stripped_content gs
          end).
  simpl concat. rewrite norm_lines_app, <- (norm_group g) by done.
  pose proof (norm_split_strip (join [nl] g)) as Hs.
  destruct (stripped_content g) as [t|] eqn:E; unfold stripped_content in E.
  - apply keep_stripped_Some in E as (-> & _). simpl. by rewrite IH, Hs.
  - apply keep_stripped_None in E. rewrite E in Hs. by rewrite IH, <- Hs.
Qed.

Lemma greedy_Forall (P : str → Prop) lines :
  Forall P lines → Forall (Forall P) (groups lines).
Proof.
  intros Hl. apply Forall_forall. intros g Hg. apply Forall_forall. intros l Hin.
  rewrite Forall_forall in Hl. apply Hl.
  by apply (greedy_lines lines [] g).
Qed.

Lemma tidy_join g :
  g ≠ [] → Forall tidy g → join [nl] g ≠ [] ∧ trimmed (join [nl] g).
Proof.
  intros Hne Hg.
  assert (Hfront : join [nl] g ≠ [] ∧ no_lead (join [nl] g)).
  { destruct Hg as [|l g [Hl [Hlead _]] _]; [done|].
    destruct g; [done|]. rewrite join_cons.
    split; [by destruct l|by apply no_lead_app_r]. }
  split; [apply Hfront|]. split; [apply Hfront|]. clear Hfront.
  induction Hg as [|l g [Hl [_ Htrail]] Hg IH]; [done|].
  destruct g as [|l' g]; [done|].
  rewrite join_cons, !rev_app_distr, <- app_assoc.
  apply no_lead_app_r; [|by apply IH].
  intros E%(f_equal (@length _)). rewrite length_rev in E.
  inversion_clear Hg as [|? ? [Hl' _] _].
  destruct l' as [|c l']; [done|]. by destruct g.
Qed.

Lemma stripped_content_tidy g :
  g ≠ [] → Forall tidy g → stripped_content g = Some (join [nl] g).
Proof.
  intros Hne Hg. destruct (tidy_join g Hne Hg) as [Hj Ht].
  unfold stripped_content, keep_stripped. rewrite strip_of_trimmed by done.
  by destruct (join [nl] g).
Qed.

Lemma omap_stripped_content_tidy gs :
  Forall (Forall tidy) gs →
  omap stripped_content gs = map (join [nl]) (filter (λ g, g ≠ []) gs).
Proof.
  induction 1 as [|g gs Hg _ IH]; [done|].
  change (omap stripped_content (g :: gs))
    with (match stripped_content g with
          | Some t => t :: omap stripped_content gs
          | None => omap stripped_content gs
          end).
  rewrite filter_cons. destruct (decide (g ≠ [])) as [Hne|Hnil].
  - rewrite stripped_content_tidy by done. simpl. by rewrite IH.
  - destruct g; [|by destruct Hnil]. by rewrite IH.
Qed.

Lemma concat_filter_nonempty (gs : list (list str)) :
  concat (filter (λ g, g ≠ []) gs) = concat gs.
Proof.
  induction gs as [|g gs IH]; [done|].
  rewrite filter_cons. destruct (decide (g ≠ [])) as [Hne|Hnil]; simpl.
  - by rewrite IH.
  - destruct g; [|by destruct Hnil]. by rewrite IH.
Qed.

Lemma join_join hs :
  Forall (λ h, h ≠ []) hs →
  join [nl] (map (join [nl]) hs) = join [nl] (concat hs).
Proof.
  induction 1 as [|h hs Hh Hhs IH]; [done|].
  destruct hs as [|h' hs].
  - simpl. by rewrite app_nil_r.
  - change (map (join [nl]) (h :: h' :: hs))
      with (join [nl] h :: join [nl] h' :: map (join [nl]) hs).
    rewrite join_cons. change (join [nl] h' :: map (join [nl]) hs)
      with (map (join [nl]) (h' :: hs)).
    rewrite IH. simpl concat. rewrite (join_app _ h); [done|done|].
    inversion_clear Hhs. by destruct h'.
Qed.

(** With tidy lines the contents, joined by newlines, are the text. *)
Lemma reassembled_tidy txt :
  Forall tidy (split nl txt) →
  join [nl] (omap stripped_content (groups (split nl txt))) = txt.
Proof.
  intros Hl. rewrite omap_stripped_content_tidy by (by apply greedy_Forall).
  rewrite join_join by (apply Forall_forall; by intros g [? _]%list_elem_of_filter).
  unfold groups. rewrite concat_filter_nonempty, greedy_concat. apply join_split.
Qed.

Lemma lstrip_nil_all_space l : lstrip l = [] → all_space l.
Proof.
  intros E. destruct (lstrip_decomp l) as (ws & Hws & Hl).
  rewrite E, app_nil_r in Hl. by rewrite Hl.
Qed.

Lemma lstrip_app_keep l r : lstrip l ≠ [] → lstrip (l ++ r) = lstrip l ++ r.
Proof.
  induction l as [|c l IH]; simpl; [done|].
  destruct (is_space c); [exact IH|done].
Qed.

Lemma rstrip_app_all_space a r : all_space r → rstrip (a ++ r) = rstrip a.
Proof.
  intros Hr. unfold rstrip.
  by rewrite rev_app_distr, lstrip_all_space_app by by apply all_space_rev.
Qed.

Lemma rstrip_app_keep a r : rstrip r ≠ [] → rstrip (a ++ r) = a ++ rstrip r.
Proof.
  unfold rstrip. intros Hr. rewrite rev_app_distr, lstrip_app_keep.
  - by rewrite rev_app_distr, rev_involutive.
  - intros E. apply Hr. by rewrite E.
Qed.

Lemma rstrip_nil_all_space s : rstrip s = [] → all_space s.
Proof.
  unfold rstrip. intros E%(f_equal (@rev _)). rewrite rev_involutive in E.
  apply lstrip_nil_all_space, all_space_rev in E. by rewrite rev_involutive in E.
Qed.

(** Stripping the front of joined lines is trimming the lines at the front. *)
Lemma lstrip_join g : lstrip (join [nl] g) = join [nl] (ltrim_lines g).
Proof.
  induction g as [|l g IH]; [done|].
  destruct g as [|l' g].
  - simpl. by destruct (lstrip l).
  - rewrite join_cons. simpl ltrim_lines at 1.
    destruct (lstrip l) as [|c t] eqn:E.
    + rewrite lstrip_all_space_app by by apply lstrip_nil_all_space.
      change ([nl] ++ ?x) with (nl :: x). simpl lstrip at 1. exact IH.
    + rewrite lstrip_app_keep by by rewrite E. by rewrite E.
Qed.

Lemma rtrim_join_nonempty g : rtrim_lines g ≠ [] → join [nl] (rtrim_lines g) ≠ [].
Proof.
  destruct g as [|l g]; [done|]. simpl rtrim_lines.
  destruct (rtrim_lines g) as [|k ks].
  - by destruct (rstrip l).
  - intros _. rewrite join_cons. by destruct l.
Qed.

Lemma rtrim_lines_cons l g :
  rtrim_lines (l :: g)
  = match rtrim_lines g with
    | [] => match rstrip l with [] => [] | t => [t] end
    | kept => l :: kept
    end.
Proof. reflexivity. Qed.

(** And the same at the back. *)
Lemma rstrip_join g : rstrip (join [nl] g) = join [nl] (rtrim_lines g).
Proof.
  induction g as [|l g IH]; [done|].
  destruct g as [|l' g].
  - simpl. by destruct (rstrip l).
  - rewrite join_cons, rtrim_lines_cons.
    destruct (rtrim_lines (l' :: g)) as [|k ks] eqn:E.
    + rewrite rstrip_app_all_space.
      * by destruct (rstrip l).
      * apply Forall_app. split; [by repeat constructor|].
        by apply rstrip_nil_all_space.
    + assert (Hne : rstrip (join [nl] (l' :: g)) ≠ []).
      { rewrite IH, <- E. apply rtrim_join_nonempty. by rewrite E. }
      assert (Hnl : rstrip ([nl] ++ join [nl] (l' :: g))
                    = [nl] ++ rstrip (join [nl] (l' :: g)))
        by by apply rstrip_app_keep.
      rewrite rstrip_app_keep by by rewrite Hnl.
      rewrite Hnl, IH. by rewrite join_cons.
Qed.

(** [strip] on a run of lines joined by newlines trims the run at its two
    ends and leaves the lines in between alone. *)
Lemma strip_join g : strip (join [nl] g) = join [nl] (trim_lines g).
Proof. unfold strip, trim_lines. by rewrite lstrip_join, rstrip_join. Qed.

Lemma lstrip_elem c l : c ∈ lstrip l → c ∈ l.
Proof.
  intros Hc. destruct (lstrip_decomp l) as (ws & _ & Hl). rewrite Hl.
  apply elem_of_app. by right.
Qed.

Lemma rstrip_elem c l : c ∈ rstrip l → c ∈ l.
Proof.
  unfold rstrip. intros Hc%list_elem_of_In%in_rev%list_elem_of_In%lstrip_elem.
  by apply list_elem_of_In, in_rev, list_elem_of_In.
Qed.

Lemma ltrim_lines_no_nl g :
  Forall (λ l, nl ∉ l) g → Forall (λ l, nl ∉ l) (ltrim_lines g).
Proof.
  induction 1 as [|l g Hl Hg IH]; [constructor|]. simpl.
  destruct (lstrip l) as [|c t] eqn:E; [done|].
  constructor; [|done]. intros Hin. apply Hl, lstrip_elem. by rewrite E.
Qed.

Lemma rtrim_lines_no_nl g :
  Forall (λ l, nl ∉ l) g → Forall (λ l, nl ∉ l) (rtrim_lines g).
Proof.
  induction 1 as [|l g Hl Hg IH]; [constructor|]. simpl.
  destruct (rtrim_lines g) as [|k ks].
  - destruct (rstrip l) as [|c t] eqn:E; [constructor|].
    constructor; [|constructor]. intros Hin. apply Hl, rstrip_elem. by rewrite E.
  - by constructor.
Qed.

Lemma trim_lines_no_nl g :
  Forall (λ l, nl ∉ l) g → Forall (λ l, nl ∉ l) (trim_lines g).
Proof. intros Hg. by apply rtrim_lines_no_nl, ltrim_lines_no_nl. Qed.

(** The content a buffer gives, in terms of its trimmed lines. *)
Lemma stripped_content_trim g :
  stripped_content g
  = match trim_lines g with
    | [] => None
    | _ :: _ => Some (join [nl] (trim_lines g))
    end.
Proof.
  unfold stripped_content, keep_stripped. rewrite strip_join.
  destruct (trim_lines g) as [|k ks] eqn:E; [done|].
  pose proof (rtrim_join_nonempty (ltrim_lines g)) as Hne.
  fold (trim_lines g) in Hne. rewrite E in Hne.
  by destruct (join [nl] (k :: ks)); [destruct Hne|].
Qed.

Lemma omap_stripped_content_trim gs :
  omap stripped_content gs
  = map (join [nl]) (filter (λ g, g ≠ []) (map trim_lines gs)).
Proof.
  induction gs as [|g gs IH]; [done|].
  change (omap stripped_content (g :: gs))
    with (match stripped_content g with
          | Some t => t :: omap stripped_content gs
          | None => omap stripped_content gs
          end).
  change (map trim_lines (g :: gs)) with (trim_lines g :: map trim_lines gs).
  rewrite filter_cons, stripped_content_trim, IH.
  destruct (trim_lines g) as [|k ks]; [done|].
  destruct (decide (k :: ks ≠ [])) as [_|Hnil]; [done|by destruct Hnil].
Qed.

(** Joined by newlines, the contents of the groups are the lines of the
    groups, each group trimmed at its two ends. *)
Lemma reassembled_trim gs :
  join [nl] (omap stripped_content gs) = join [nl] (concat (map trim_lines gs)).
Proof.
  rewrite omap_stripped_content_trim.
  rewrite join_join by (apply Forall_forall; by intros g [? _]%list_elem_of_filter).
  by rewrite concat_filter_nonempty.
Qed.

Lemma trimmed_groups_nonempty gs :
  omap stripped_content gs ≠ [] → concat (map trim_lines gs) ≠ [].
Proof.
  rewrite omap_stripped_content_trim, <- (concat_filter_nonempty (map trim_lines gs)).
  destruct (filter (λ g, g ≠ []) (map trim_lines gs)) as [|h hs] eqn:E; [done|].
  intros _. assert (Hh : h ∈ filter (λ g, g ≠ []) (map trim_lines gs))
    by (rewrite E; by left).
  apply list_elem_of_filter in Hh as [Hh _]. simpl. by destruct h.
Qed.

(** C1 (amended): joined by newlines in id order, the chunks of a text file
    give back its lines except at the two ends of each chunk: there the
    whitespace-only lines are dropped and the first and the last line that
    stay lose their leading, respectively trailing, whitespace. Every other
    line comes back as it is, indentation and blank lines inside a chunk
    included. So a file of at most 500 characters gives back its text
    stripped at the two ends, and a file whose lines are all non-empty and
    free of whitespace at either end gives back exactly its lines. *)
Theorem txt_chunks_reassemble w p et txt cs :
  txt_chunk_call w p et txt cs →
  concat (groups (split nl txt)) = split nl txt
  ∧ reassembled cs = join [nl] (concat (map trim_lines (groups (split nl txt))))
  ∧ (cs ≠ [] →
     split nl (reassembled cs) = concat (map trim_lines (groups (split nl txt))))
  ∧ (length txt ≤ 500 → reassembled cs = strip txt)
  ∧ (Forall tidy (split nl txt) → split nl (reassembled cs) = split nl txt).
Proof.
  intros ->%txt_chunk_call_loop. rewrite txt_chunks_stripped_chunks.
  unfold reassembled, stripped_chunks. rewrite number_contents.
  split; [unfold groups; by rewrite greedy_concat|].
  split; [apply reassembled_trim|]. split; [|split].
  - intros Hcs. rewrite reassembled_trim. apply split_join.
    + apply trimmed_groups_nonempty. intros E. apply Hcs. by rewrite E.
    + apply Forall_concat, Forall_fmap.
      eapply Forall_impl; [apply greedy_Forall, split_no_nl|].
      intros g Hg. by apply trim_lines_no_nl.
  - intros Hlen. rewrite groups_short by done.
    change (omap stripped_content [split nl txt])
      with (match stripped_content (split nl txt) with
            | Some t => [t]
            | None => []
            end).
    unfold stripped_content, keep_stripped. rewrite join_split.
    by destruct (strip txt).
  - intros Hl. by rewrite reassembled_tidy.
Qed.

End Reassembly.

(** ** Success and failure of [process_document] *)

Section Outcomes.

(** A result built by the [try] block reports success and no error. *)
Lemma process_body_ok w p et r :
  process_body w p et = Ok r → success r = true ∧ error r = None.
Proof.
  unfold process_body, mbind, outcome_bind.
  destruct (os_path_exists w p); simpl; [|done].
  destruct (bool_decide (str_lower w (path_suffix w p) = lit ".txt")).
  - destruct (read_text w p); [|done]. destruct (os_path_getsize w p); [|done].
    destruct (bool_decide (str_lower w et = lit "chunks")); by intros [= <-].
  - destruct (docling_load w p (export_mode_of w et)) as [[|doc0 docs]|]; [done| |done].
    destruct (export_mode_of w et); by intros [= <-].
Qed.

(** The [try] block raises exactly at the places listed by [raised]. *)
Lemma process_body_raised w p et e :
  process_body w p et = Raise e ↔ raised w p et e.
Proof.
  unfold process_body, mbind, outcome_bind. split.
  - destruct (os_path_exists w p) eqn:Hex; simpl.
    + case_bool_decide as Hext.
      * destruct (read_text w p) as [txt|e'] eqn:Hread.
        -- destruct (os_path_getsize w p) as [n|e''] eqn:Hsize.
           ++ by destruct (bool_decide _).
           ++ intros [= <-]. by eapply raised_getsize.
        -- intros [= <-]. by apply raised_read.
      * destruct (docling_load w p (export_mode_of w et)) as [[|doc0 docs]|e'] eqn:Hload.
        -- intros [= <-]. by apply raised_no_documents.
        -- by destruct (export_mode_of w et).
        -- intros [= <-]. by apply raised_loader.
    + intros [= <-]. by apply raised_missing.
  - intros [Hex|e' Hex Hext Hread|txt e' Hex Hext Hread Hsize
            |e' Hex Hext Hload|Hex Hext Hload]; rewrite Hex; simpl; [done|..].
    + by rewrite bool_decide_eq_true_2, Hread.
    + by rewrite bool_decide_eq_true_2, Hread, Hsize.
    + by rewrite bool_decide_eq_false_2, Hload.
    + by rewrite bool_decide_eq_false_2, Hload.
Qed.

Lemma raised_error_result w p et e :
  raised w p et e → process_document w p et = error_result e.
Proof.
  intros Hr%process_body_raised. unfold process_document. by rewrite Hr.
Qed.

(** C6: whatever is raised while a document is processed (missing file,
    failing read, failing loader, no documents), [process_document] returns
    a result with [success] false, empty [markdown_content], empty
    [metadata] and the exception's string as [error]; being a function to
    results, it never lets the exception through. *)
Theorem exceptions_become_error_results w p et e :
  raised w p et e →
  process_document w p et
  = {| success := false; markdown_content := []; metadata := ∅;
       chunks := None; error := Some (exn_str e) |}.
Proof.
  intros Hbody%process_body_raised.
  unfold process_document. rewrite Hbody.
  reflexivity.
Qed.

(** C4 (amended): exactly one of these holds of a returned result: an error
    is set, [success] is false and content and metadata are empty; or
    [success] is true and no error is set. The content of a success may be
    empty. *)
Theorem result_error_xor_success w p et :
  exactly_one
    (is_Some (error (process_document w p et))
     ∧ success (process_document w p et) = false
     ∧ markdown_content (process_document w p et) = []
     ∧ metadata (process_document w p et) = ∅)
    (success (process_document w p et) = true
     ∧ error (process_document w p et) = None).
Proof.
  unfold process_document.
  destruct (process_body w p et) as [r|e] eqn:E.
  - right. apply process_body_ok in E as [Hs He]. rewrite Hs, He.
    split; [|done]. by intros ([? [=]] & _).
  - left. simpl. split; [|by intros [[=] _]]. by split; [eexists|].
Qed.

(** C7: when the loader returns no units for a file that is not a text file,
    the result has [success] false and a non-empty error, which is "No
    documents were processed" if the file exists; nothing is raised. *)
Theorem no_documents_is_failure w p et :
  str_lower w (path_suffix w p) ≠ lit ".txt" →
  docling_load w p (export_mode_of w et) = Ok [] →
  success (process_document w p et) = false
  ∧ ∃ msg, error (process_document w p et) = Some msg
           ∧ msg ≠ []
           ∧ (os_path_exists w p = true → msg = lit "No documents were processed").
Proof.
  intros Hext Hload. destruct (os_path_exists w p) eqn:Hex.
  - rewrite (raised_error_result w p et
               (Exception (lit "No documents were processed")))
      by (by apply raised_no_documents).
    split; [done|]. eexists. split; [done|]. split; [|done]. by vm_compute.
  - rewrite (raised_error_result w p et
               (Exception (lit "File not found: " ++ p)))
      by (by apply raised_missing).
    split; [done|]. eexists. split; [done|]. split; [|done]. by vm_compute.
Qed.

Lemma universal_newlines_id s : cr ∉ s → universal_newlines s = s.
Proof.
  induction s as [|c s IH]; [done|]. intros Hcr. simpl.
  destruct (N.eqb_spec c cr) as [->|Hc]; [destruct Hcr; by left|].
  rewrite IH; [done|]. intros Hin. apply Hcr. by right.
Qed.

Lemma universal_newlines_no_cr n : ∀ s, length s ≤ n → cr ∉ universal_newlines s.
Proof.
  induction n as [|n IH]; intros [|c s] Hlen; simpl in *;
    [by intros ?%elem_of_nil|lia|by intros ?%elem_of_nil|].
  destruct (N.eqb_spec c cr) as [->|Hc].
  - destruct s as [|c' s].
    + by intros [?|?%elem_of_nil]%elem_of_cons.
    + destruct (c' =? nl)%N.
      * intros [?|Hin]%elem_of_cons; [done|]. revert Hin. apply IH. simpl in Hlen. lia.
      * intros [?|Hin]%elem_of_cons; [done|]. revert Hin. apply IH. lia.
  - intros [?|Hin]%elem_of_cons; [done|]. revert Hin. apply IH. lia.
Qed.

(** C8 (amended): for a readable text file of fewer than 500 characters and
    export type "markdown", [success] is true, there are no chunks, and
    [markdown_content] is the file's contents as text mode reads them: every
    "\r\n" and lone "\r" turned into "\n". It is the raw contents exactly
    when these hold no carriage return. *)
Theorem small_txt_markdown w p et raw size :
  os_path_exists w p = true →
  str_lower w (path_suffix w p) = lit ".txt" →
  holds_text w p raw →
  os_path_getsize w p = Ok size →
  length raw < 500 →
  str_lower w et = lit "markdown" →
  markdown_content (process_document w p et) = universal_newlines raw
  ∧ success (process_document w p et) = true
  ∧ chunks (process_document w p et) = None
  ∧ (markdown_content (process_document w p et) = raw ↔ cr ∉ raw).
Proof.
  intros Hex Hext Hread Hsize _ Hmode.
  rewrite (process_txt w p et (universal_newlines raw) size), Hmode by done.
  rewrite bool_decide_eq_false_2 by (by vm_compute).
  cbn [markdown_content success chunks].
  split; [done|]. split; [done|]. split; [done|]. split.
  - intros E. rewrite <- E. by apply (universal_newlines_no_cr (length raw)).
  - apply universal_newlines_id.
Qed.

End Outcomes.

(** ** The temporary file of the upload endpoint *)

Section TempFile.

Lemma put_file_exists w path data : os_path_exists (put_file w path data) path = true.
Proof. simpl. by rewrite bool_decide_eq_true_2. Qed.

Lemma remove_file_exists w path : os_path_exists (remove_file w path) path = false.
Proof. simpl. by rewrite bool_decide_eq_true_2. Qed.

(** A file the OS lets go is gone after [os.unlink]. *)
Lemma unlink_removes w path :
  os_path_exists w path = true → unlink_error w path = None →
  os_unlink w path = Ok (remove_file w path).
Proof. intros Hex Hun. unfold os_unlink. by rewrite Hex, Hun. Qed.

(** C9 (amended): when a [/process-document] call has created its temporary
    file, the file is unlinked before the call ends, whether a result is
    returned or the call fails; it is gone afterwards provided the OS
    carries out the unlink (a failing unlink is ignored). *)
Theorem temp_file_removed w file et name tmp w1 :
  filename file = Some name →
  name ≠ [] →
  str_lower w (path_suffix w name) ∈ supported_formats →
  named_temporary_file w (str_lower w (path_suffix w name)) = Ok (tmp, w1) →
  unlink_error w tmp = None →
  os_path_exists (process_document_endpoint w file et).1 tmp = false.
Proof.
  intros Hname Hne Hfmt Htmp Hun. unfold process_document_endpoint.
  rewrite Hname. destruct name as [|c name]; [done|].
  rewrite bool_decide_eq_true_2, Htmp by done.
  unfold named_temporary_file, mbind, outcome_bind in Htmp.
  destruct (tmp_create w _); [|done]. injection Htmp as -> <-.
  destruct (upload_read file) as [data|e].
  - unfold temp_write. simpl write_error.
    destruct (write_error w tmp data).
    + rewrite unlink_removes; [apply remove_file_exists|apply put_file_exists|done].
    + rewrite unlink_removes; [apply remove_file_exists|apply put_file_exists|done].
  - rewrite unlink_removes; [apply remove_file_exists|apply put_file_exists|done].
Qed.

End TempFile.

(** ** Concrete runs *)

Section Runs.

Import Chunker Sample.

Ltac run := vm_compute; reflexivity.

Ltac txt_call := unfold txt_chunk_call; repeat split; run.

Lemma txt_chunks_reassemble_witness :
  txt_chunk_call (machine notes two_lines [] false) notes (lit "chunks")
    two_lines (txt_chunks notes two_lines)
  ∧ split nl (reassembled (txt_chunks notes two_lines)) = split nl two_lines
  ∧ txt_chunk_call (machine notes Fixture.inner_space [] false) notes (lit "chunks")
      Fixture.inner_space (txt_chunks notes Fixture.inner_space)
  ∧ reassembled (txt_chunks notes Fixture.inner_space) = Fixture.inner_space.
Proof.
  assert (Hcall : txt_chunk_call (machine notes two_lines [] false) notes
                    (lit "chunks") two_lines (txt_chunks notes two_lines))
    by txt_call.
  assert (Hcall' : txt_chunk_call (machine notes Fixture.inner_space [] false) notes
                     (lit "chunks") Fixture.inner_space
                     (txt_chunks notes Fixture.inner_space))
    by txt_call.
  destruct (txt_chunks_reassemble _ _ _ _ _ Hcall) as (_ & _ & _ & _ & Hexact).
  destruct (txt_chunks_reassemble _ _ _ _ _ Hcall') as (_ & _ & _ & Hshort & _).
  split; [exact Hcall|]. split.
  { apply Hexact. vm_compute. repeat constructor; discriminate. }
  split; [exact Hcall'|].
  rewrite Hshort by (vm_compute; lia). run.
Defined.

(** C1 as stated fails: the indentation of the first line of a chunk is
    lost, so the lines do not come back as they were. *)
Lemma reassembly_drops_indentation :
  txt_chunk_call (machine notes Fixture.indented [] false) notes (lit "chunks")
    Fixture.indented (txt_chunks notes Fixture.indented)
  ∧ split nl Fixture.indented = [lit "  a"; lit "b"]
  ∧ split nl (reassembled (txt_chunks notes Fixture.indented)) = [lit "a"; lit "b"]
  ∧ split nl (reassembled (txt_chunks notes Fixture.indented))
    ≠ split nl Fixture.indented.
Proof.
  split; [txt_call|]. split; [run|]. split; [run|].
  intros H. vm_compute in H. discriminate.
Qed.

Lemma txt_chunks_within_limit_witness :
  txt_chunk_call (machine notes long_then_short [] false) notes (lit "chunks")
    long_then_short (txt_chunks notes long_then_short)
  ∧ Forall (λ c, within_limit_stripped (split nl long_then_short) (content c))
      (txt_chunks notes long_then_short).
Proof.
  assert (Hcall : txt_chunk_call (machine notes long_then_short [] false) notes
                    (lit "chunks") long_then_short (txt_chunks notes long_then_short))
    by txt_call.
  split; [exact Hcall|]. exact (txt_chunks_within_limit _ _ _ _ _ Hcall).
Defined.

(** C2 as stated fails: an indented line of 502 characters gives a chunk of
    501 characters that is not that line, but the line stripped. *)
Lemma long_chunk_is_not_the_line :
  txt_chunk_call (machine notes indented_long_line [] false) notes (lit "chunks")
    indented_long_line (txt_chunks notes indented_long_line)
  ∧ map content (txt_chunks notes indented_long_line) = [x_line 501]
  ∧ ¬ Forall (λ c, within_limit (split nl indented_long_line) (content c))
        (txt_chunks notes indented_long_line).
Proof.
  assert (Hc : map content (txt_chunks notes indented_long_line) = [x_line 501])
    by run.
  split; [txt_call|]. split; [exact Hc|].
  intros HF. apply Forall_content_map in HF. rewrite Hc in HF.
  inversion_clear HF as [|? ? [Hlen|(line & Hin & _ & Heq)] _].
  - vm_compute in Hlen. lia.
  - assert (Hs : split nl indented_long_line = [indented_long_line]) by run.
    rewrite Hs in Hin. apply list_elem_of_singleton in Hin. subst line.
    apply (f_equal (@length _)) in Heq. vm_compute in Heq. discriminate.
Qed.

Lemma chunker_refines_stripped_reference_witness :
  txt_chunk_call (machine notes long_then_short [] false) notes (lit "chunks")
    long_then_short (txt_chunks notes long_then_short)
  ∧ txt_chunks notes long_then_short
    = Reference.stripped_chunks notes long_then_short.
Proof.
  assert (Hcall : txt_chunk_call (machine notes long_then_short [] false) notes
                    (lit "chunks") long_then_short (txt_chunks notes long_then_short))
    by txt_call.
  split; [exact Hcall|]. exact (chunker_refines_stripped_reference _ _ _ _ _ Hcall).
Defined.

(** C3 as stated fails: for a file of three blanks the reference of the
    specification flushes the non-empty final buffer as chunk 0, and the code
    returns no chunk. *)
Lemma blank_file_has_no_chunk :
  txt_chunk_call (machine notes blanks [] false) notes (lit "chunks") blanks []
  ∧ map content (Reference.spec_chunks notes blanks) = [blanks]
  ∧ [] ≠ Reference.spec_chunks notes blanks.
Proof.
  split; [txt_call|]. split; [run|].
  intros H. vm_compute in H. discriminate.
Qed.

(** C4 as stated fails: an empty text file gives [success] true with an
    empty [markdown_content], so neither alternative holds. *)
Lemma empty_file_succeeds_with_empty_content :
  success (process_document (machine notes [] [] false) notes (lit "markdown")) = true
  ∧ markdown_content (process_document (machine notes [] [] false) notes (lit "markdown"))
    = []
  ∧ ¬ exactly_one
        (is_Some (error (process_document (machine notes [] [] false) notes
                           (lit "markdown")))
         ∧ success (process_document (machine notes [] [] false) notes
                      (lit "markdown")) = false)
        (success (process_document (machine notes [] [] false) notes
                    (lit "markdown")) = true
         ∧ markdown_content (process_document (machine notes [] [] false) notes
                               (lit "markdown")) ≠ []).
Proof.
  assert (Hs : success (process_document (machine notes [] [] false) notes
                          (lit "markdown")) = true) by run.
  assert (Hm : markdown_content (process_document (machine notes [] [] false) notes
                                   (lit "markdown")) = []) by run.
  split; [exact Hs|]. split; [exact Hm|].
  intros [[[_ Hf] _]|[_ [_ Hne]]].
  - rewrite Hs in Hf. discriminate.
  - by apply Hne.
Qed.

Lemma chunk_ids_contiguous_witness :
  chunks (process_document (machine report [] two_docs false) report (lit "chunks"))
  = Some (doc_chunks 0 two_docs)
  ∧ map chunk_id (doc_chunks 0 two_docs) = seq 0 (length (doc_chunks 0 two_docs)).
Proof.
  assert (Hc : chunks (process_document (machine report [] two_docs false) report
                         (lit "chunks")) = Some (doc_chunks 0 two_docs)) by run.
  split; [exact Hc|]. exact (chunk_ids_contiguous _ _ _ _ Hc).
Defined.

Lemma exceptions_become_error_results_witness :
  raised (machine notes two_lines [] false) report (lit "markdown")
    (Exception (lit "File not found: " ++ report))
  ∧ process_document (machine notes two_lines [] false) report (lit "markdown")
    = {| success := false; markdown_content := []; metadata := ∅; chunks := None;
         error := Some (lit "File not found: " ++ report) |}.
Proof.
  assert (Hr : raised (machine notes two_lines [] false) report (lit "markdown")
                 (Exception (lit "File not found: " ++ report)))
    by (apply raised_missing; run).
  split; [exact Hr|]. exact (exceptions_become_error_results _ _ _ _ Hr).
Defined.

Lemma no_documents_is_failure_witness :
  success (process_document (machine report [] [] false) report (lit "markdown")) = false
  ∧ ∃ msg,
      error (process_document (machine report [] [] false) report (lit "markdown"))
      = Some msg
      ∧ msg ≠ []
      ∧ (os_path_exists (machine report [] [] false) report = true →
         msg = lit "No documents were processed").
Proof.
  apply no_documents_is_failure.
  - intros H. vm_compute in H. discriminate.
  - run.
Defined.

Lemma small_txt_markdown_witness :
  markdown_content
    (process_document (machine notes two_lines [] false) notes (lit "markdown"))
  = universal_newlines two_lines
  ∧ success (process_document (machine notes two_lines [] false) notes (lit "markdown"))
    = true
  ∧ chunks (process_document (machine notes two_lines [] false) notes (lit "markdown"))
    = None
  ∧ markdown_content
      (process_document (machine notes two_lines [] false) notes (lit "markdown"))
    = two_lines.
Proof.
  destruct (small_txt_markdown (machine notes two_lines [] false) notes
              (lit "markdown") two_lines (length two_lines))
    as (Hmd & Hs & Hc & Hraw).
  - run.
  - run.
  - unfold holds_text. run.
  - run.
  - vm_compute. lia.
  - run.
  - split; [exact Hmd|]. split; [exact Hs|]. split; [exact Hc|].
    apply Hraw. intros Hin. apply list_elem_of_In in Hin. vm_compute in Hin.
    repeat (destruct Hin as [Hin|Hin]; [discriminate|]). exact Hin.
Defined.

(** C8 as stated fails: a file with Windows line endings is read in text
    mode, so its content comes back with "\n" for every "\r\n" and is not
    the raw contents. *)
Lemma crlf_file_is_not_returned_raw :
  os_path_exists Fixture.crlf_machine notes = true
  ∧ str_lower Fixture.crlf_machine (path_suffix Fixture.crlf_machine notes) = lit ".txt"
  ∧ holds_text Fixture.crlf_machine notes Fixture.crlf_text
  ∧ os_path_getsize Fixture.crlf_machine notes = Ok 7
  ∧ length Fixture.crlf_text < 500
  ∧ str_lower Fixture.crlf_machine (lit "markdown") = lit "markdown"
  ∧ success (process_document Fixture.crlf_machine notes (lit "markdown")) = true
  ∧ markdown_content (process_document Fixture.crlf_machine notes (lit "markdown"))
    = lit "a" ++ [nl] ++ lit "b" ++ [nl] ++ lit "c"
  ∧ markdown_content (process_document Fixture.crlf_machine notes (lit "markdown"))
    ≠ Fixture.crlf_text.
Proof.
  split; [run|]. split; [run|]. split; [unfold holds_text; run|]. split; [run|].
  split; [vm_compute; lia|]. split; [run|]. split; [run|]. split; [run|].
  intros H. vm_compute in H. discriminate.
Qed.

Lemma temp_file_removed_witness :
  named_temporary_file (machine notes two_lines [] false) (lit ".txt")
  = Ok (upload_tmp, put_file (machine notes two_lines [] false) upload_tmp [])
  ∧ os_path_exists
      (process_document_endpoint (machine notes two_lines [] false) upload
         (lit "chunks")).1 upload_tmp = false.
Proof.
  assert (Ht : named_temporary_file (machine notes two_lines [] false) (lit ".txt")
               = Ok (upload_tmp, put_file (machine notes two_lines [] false)
                                   upload_tmp [])) by reflexivity.
  split; [exact Ht|].
  apply (temp_file_removed _ upload _ (lit "up.TXT") upload_tmp
           (put_file (machine notes two_lines [] false) upload_tmp [])).
  - reflexivity.
  - discriminate.
  - vm_compute. apply list_elem_of_In. simpl. tauto.
  - exact Ht.
  - reflexivity.
Defined.

(** C9 as stated fails: when the OS refuses the unlink (the file is still
    open at that point), the failure is ignored, the call returns its result
    and the temporary file is still there. *)
Lemma locked_temp_file_stays :
  named_temporary_file (machine notes two_lines [] true) (lit ".txt")
  = Ok (upload_tmp, put_file (machine notes two_lines [] true) upload_tmp [])
  ∧ (∃ r, (process_document_endpoint (machine notes two_lines [] true) upload
             (lit "chunks")).2 = Returned r ∧ success r = true)
  ∧ os_path_exists
      (process_document_endpoint (machine notes two_lines [] true) upload
         (lit "chunks")).1 upload_tmp = true.
Proof.
  split; [reflexivity|]. split; [|run].
  eexists. split; [reflexivity|run].
Qed.

Lemma txt_chunks_nonblank_trimmed_witness :
  txt_chunk_call (machine notes long_then_short [] false) notes (lit "chunks")
    long_then_short (txt_chunks notes long_then_short)
  ∧ Forall (λ c, content c ≠ [] ∧ trimmed (content c)) (txt_chunks notes long_then_short)
  ∧ map content (txt_chunks notes long_then_short)
    = omap (λ buffer, keep_stripped (Reference.text buffer))
        (Reference.groups (split nl long_then_short))
  ∧ map chunk_id (txt_chunks notes long_then_short)
    = seq 0 (length (txt_chunks notes long_then_short)).
Proof.
  assert (Hcall : txt_chunk_call (machine notes long_then_short [] false) notes
                    (lit "chunks") long_then_short (txt_chunks notes long_then_short))
    by txt_call.
  split; [exact Hcall|]. exact (txt_chunks_nonblank_trimmed _ _ _ _ _ Hcall).
Defined.

End Runs.

(** ** More on the line chunker *)

Section ChunkerFacts.

Import Chunker Reference.

Ltac lit_ne := let H := fresh in intros H; vm_compute in H; discriminate.

(** A text file of at most 500 characters gives one chunk, the stripped text
    with id 0, or no chunk at all when it holds only whitespace. *)
Theorem short_text_single_chunk w p et txt cs :
  txt_chunk_call w p et txt cs →
  length txt ≤ 500 →
  map content cs = (if truthy (strip txt) then [strip txt] else [])
  ∧ map chunk_id cs = (if truthy (strip txt) then [0] else []).
Proof.
  intros ->%txt_chunk_call_loop Hlen. rewrite txt_chunks_stripped_chunks.
  unfold stripped_chunks. rewrite groups_short by done.
  rewrite number_contents, number_ids.
  change (omap stripped_content [split nl txt])
    with (match stripped_content (split nl txt) with
          | Some t => [t]
          | None => []
          end).
  unfold stripped_content, keep_stripped. rewrite join_split.
  by destruct (truthy (strip txt)).
Qed.

Lemma all_space_join ls : Forall all_space ls → all_space (join [nl] ls).
Proof.
  induction 1 as [|l ls Hl Hls IH]; [constructor|].
  destruct ls as [|l' ls]; [done|]. rewrite join_cons.
  apply Forall_app. split; [done|]. constructor; [done|apply IH].
Qed.

Lemma norm_lines_nil ls : norm_lines ls = [] → Forall all_space ls.
Proof.
  induction ls as [|l ls IH]; [constructor|]. rewrite norm_lines_cons.
  destruct (keep_stripped l) eqn:E; [done|]. intros Hls.
  constructor; [|by apply IH].
  by apply strip_nil_all_space, keep_stripped_None.
Qed.

Lemma omap_stripped_content_blank gs :
  Forall (Forall all_space) gs → omap stripped_content gs = [].
Proof.
  induction 1 as [|g gs Hg _ IH]; [done|].
  change (omap stripped_content (g :: gs))
    with (match stripped_content g with
          | Some t => t :: omap stripped_content gs
          | None => omap stripped_content gs
          end).
  unfold stripped_content. by rewrite keep_stripped_all_space by by apply all_space_join.
Qed.

(** A text file gives no chunk at all exactly when it holds nothing but
    whitespace (the empty file included). *)
Theorem no_chunks_iff_blank w p et txt cs :
  txt_chunk_call w p et txt cs →
  cs = [] ↔ all_space txt.
Proof.
  intros ->%txt_chunk_call_loop. rewrite txt_chunks_stripped_chunks.
  unfold stripped_chunks. split.
  - intros Hnil%(f_equal (map content)). rewrite number_contents in Hnil.
    pose proof (norm_reassembled (groups (split nl txt))
                  (greedy_Forall _ _ (split_no_nl txt))) as Hnorm.
    rewrite Hnil in Hnorm. unfold groups in Hnorm. rewrite greedy_concat in Hnorm.
    simpl app in Hnorm. symmetry in Hnorm. apply norm_lines_nil, all_space_join in Hnorm.
    by rewrite join_split in Hnorm.
  - intros Hsp. rewrite omap_stripped_content_blank; [done|].
    by apply greedy_Forall, split_all_space.
Qed.

Lemma omap_stripped_content_length gs :
  length (omap stripped_content gs) ≤ length (concat gs).
Proof.
  induction gs as [|g gs IH]; [done|].
  change (omap stripped_content (g :: gs))
    with (match stripped_content g with
          | Some t => t :: omap stripped_content gs
          | None => omap stripped_content gs
          end).
  simpl concat. rewrite length_app.
  destruct g as [|l g]; [by simpl|].
  destruct (stripped_content (l :: g)); simpl; lia.
Qed.

(** A text file never gives more chunks than it has lines. *)
Theorem chunk_count_at_most_lines w p et txt cs :
  txt_chunk_call w p et txt cs →
  length cs ≤ length (split nl txt).
Proof.
  intros ->%txt_chunk_call_loop. rewrite txt_chunks_stripped_chunks.
  unfold stripped_chunks. rewrite number_length.
  etrans; [apply omap_stripped_content_length|].
  unfold groups. by rewrite greedy_concat.
Qed.

Lemma number_metadata p n cs :
  Forall (λ c, chunk_metadata c = chunk_meta p (chunk_id c)) (number p n cs).
Proof.
  revert n. induction cs as [|c cs IH]; intros n; simpl; constructor; [done|apply IH].
Qed.

(** The metadata of a chunk of a text file has two entries: [chunk_index],
    equal to the chunk's id, and [source], the path that was processed. *)
Theorem txt_chunk_metadata w p et txt cs :
  txt_chunk_call w p et txt cs →
  Forall (λ c,
    chunk_metadata c !! lit "chunk_index" = Some (VInt (Z.of_nat (chunk_id c)))
    ∧ chunk_metadata c !! lit "source" = Some (VStr p)
    ∧ ∀ key, key ≠ lit "chunk_index" → key ≠ lit "source" →
             chunk_metadata c !! key = None) cs.
Proof.
  intros ->%txt_chunk_call_loop. rewrite txt_chunks_stripped_chunks.
  unfold stripped_chunks. eapply Forall_impl; [apply number_metadata|].
  intros c ->. unfold chunk_meta. split; [|split].
  - rewrite lookup_insert_ne by lit_ne. by rewrite lookup_insert_eq.
  - by rewrite lookup_insert_eq.
  - intros key H1 H2. by rewrite !lookup_insert_ne, lookup_empty.
Qed.

End ChunkerFacts.

(** ** More on the results of [process_document] *)

Section ResultFacts.

Import Chunker.

Ltac lit_ne := let H := fresh in intros H; vm_compute in H; discriminate.

Ltac run_body := unfold process_document, process_body, mbind, outcome_bind.

(** For a readable text file every call succeeds; the content is the text as
    read; the metadata records its length, the file size, the export type as
    it was passed, and the number of chunks exactly when chunks are returned. *)
Theorem txt_result w p et txt size :
  os_path_exists w p = true →
  str_lower w (path_suffix w p) = lit ".txt" →
  read_text w p = Ok txt →
  os_path_getsize w p = Ok size →
  let r := process_document w p et in
  success r = true ∧ error r = None ∧ markdown_content r = txt
  ∧ metadata r !! lit "total_length" = Some (VInt (Z.of_nat (length txt)))
  ∧ metadata r !! lit "file_size" = Some (VInt (Z.of_nat size))
  ∧ metadata r !! lit "export_type" = Some (VStr et)
  ∧ metadata r !! lit "file_type" = Some (VStr (lit "txt"))
  ∧ metadata r !! lit "processing_method" = Some (VStr (lit "langchain_docling_txt"))
  ∧ metadata r !! lit "total_chunks"
    = (λ cs, VInt (Z.of_nat (length cs))) <$> chunks r.
Proof.
  intros Hex Hext Hread Hsize. simpl.
  rewrite (process_txt w p et txt size) by done.
  destruct (bool_decide (str_lower w et = lit "chunks")); simpl;
    unfold txt_metadata; repeat split;
    repeat (rewrite lookup_insert_eq || rewrite lookup_insert_ne by lit_ne);
    try done.
Qed.


(** A call fails exactly when the path is missing, the text file cannot be
    read or measured, the loader raises, or the loader returns nothing. *)
Theorem failure_iff_raised w p et :
  success (process_document w p et) = false ↔ ∃ e, raised w p et e.
Proof.
  unfold process_document. destruct (process_body w p et) as [r|e] eqn:E.
  - apply process_body_ok in E as Hr. destruct Hr as [Hs _]. rewrite Hs. split; [done|].
    intros [e He%process_body_raised]. congruence.
  - split; [|done]. intros _. exists e. by apply process_body_raised.
Qed.

(** For a text file the external loader is never consulted. *)
Theorem txt_ignores_loader w load p et :
  str_lower w (path_suffix w p) = lit ".txt" →
  process_document (with_loader w load) p et = process_document w p et.
Proof.
  intros Hext. run_body. simpl. by rewrite Hext.
Qed.

(** For any other file the service itself never opens or measures the file:
    only the loader does. *)
Theorem loader_path_ignores_file_contents w read getsize p et :
  str_lower w (path_suffix w p) ≠ lit ".txt" →
  process_document (with_files w read getsize) p et = process_document w p et.
Proof.
  intros Hext. run_body. simpl. by rewrite !bool_decide_eq_false_2.
Qed.

(** The result of a call that hands the file to the loader and gets units. *)
Lemma process_loader w p et doc0 docs :
  os_path_exists w p = true →
  str_lower w (path_suffix w p) ≠ lit ".txt" →
  docling_load w p (export_mode_of w et) = Ok (doc0 :: docs) →
  process_document w p et =
    match export_mode_of w et with
    | MARKDOWN =>
        {| success := true;
           markdown_content := join [nl; nl] (map page_content (doc0 :: docs));
           metadata :=
             dict_update (doc_metadata doc0)
               (markdown_fields (length (doc0 :: docs))
                  (length (join [nl; nl] (map page_content (doc0 :: docs)))));
           chunks := None; error := None |}
    | DOC_CHUNKS =>
        {| success := true;
           markdown_content := strip (total_content (doc0 :: docs));
           metadata :=
             doc_metadata doc0
             ∪ chunk_fields (length (doc_chunks 0 (doc0 :: docs)))
                 (length (total_content (doc0 :: docs)));
           chunks := Some (doc_chunks 0 (doc0 :: docs)); error := None |}
    end.
Proof.
  intros Hex Hext Hload. run_body.
  rewrite Hex, bool_decide_eq_false_2, Hload by done. simpl negb. cbv iota.
  destruct (export_mode_of w et); [done|].
  f_equal. case_bool_decide as Hm; [|done].
  rewrite Hm. by rewrite (left_id_L ∅ (∪)).
Qed.

Lemma export_mode_markdown w et :
  str_lower w et ≠ lit "chunks" → export_mode_of w et = MARKDOWN.
Proof. intros H. unfold export_mode_of. by rewrite bool_decide_eq_false_2. Qed.

Lemma export_mode_chunks w et :
  str_lower w et = lit "chunks" → export_mode_of w et = DOC_CHUNKS.
Proof. intros H. unfold export_mode_of. by rewrite bool_decide_eq_true_2. Qed.

(** In markdown mode the units of the loader are joined by blank lines, no
    chunks are returned, and the four fields the service writes replace
    entries of the same name in the first unit's metadata, whose other
    entries are kept. *)
Theorem loader_markdown_result w p et doc0 docs :
  os_path_exists w p = true →
  str_lower w (path_suffix w p) ≠ lit ".txt" →
  str_lower w et ≠ lit "chunks" →
  docling_load w p MARKDOWN = Ok (doc0 :: docs) →
  let r := process_document w p et in
  success r = true ∧ chunks r = None
  ∧ markdown_content r = join [nl; nl] (map page_content (doc0 :: docs))
  ∧ metadata r !! lit "processing_method" = Some (VStr (lit "langchain_docling"))
  ∧ metadata r !! lit "export_type" = Some (VStr (lit "markdown"))
  ∧ metadata r !! lit "total_documents" = Some (VInt (Z.of_nat (S (length docs))))
  ∧ metadata r !! lit "total_length"
    = Some (VInt (Z.of_nat (length (markdown_content r))))
  ∧ ∀ key, key ∉ [lit "processing_method"; lit "export_type";
                  lit "total_documents"; lit "total_length"] →
           metadata r !! key = doc_metadata doc0 !! key.
Proof.
  intros Hex Hext Hmode Hload. simpl.
  pose proof (export_mode_markdown w et Hmode) as Hm.
  rewrite (process_loader w p et doc0 docs), Hm by (by rewrite ?Hm).
  cbn [success chunks markdown_content metadata]. unfold dict_update, markdown_fields.
  repeat split.
  - apply lookup_union_Some_l.
    repeat (rewrite lookup_insert_eq || rewrite lookup_insert_ne by lit_ne). done.
  - apply lookup_union_Some_l.
    repeat (rewrite lookup_insert_eq || rewrite lookup_insert_ne by lit_ne). done.
  - apply lookup_union_Some_l.
    repeat (rewrite lookup_insert_eq || rewrite lookup_insert_ne by lit_ne). done.
  - apply lookup_union_Some_l.
    repeat (rewrite lookup_insert_eq || rewrite lookup_insert_ne by lit_ne). done.
  - intros key Hkey. rewrite lookup_union_r; [done|].
    rewrite !lookup_insert_ne, lookup_empty; [done|..];
      intros <-; apply Hkey; set_solver.
Qed.

Lemma doc_chunks_contents docs : ∀ i,
  map content (doc_chunks i docs) = map page_content docs.
Proof. induction docs as [|d docs IH]; intros i; simpl; [done|]. by rewrite IH. Qed.

Lemma doc_chunks_metadata docs : ∀ i,
  map chunk_metadata (doc_chunks i docs) = map doc_metadata docs.
Proof. induction docs as [|d docs IH]; intros i; simpl; [done|]. by rewrite IH. Qed.

(** In chunk mode the loader's units come back one chunk each, in order,
    with their text and their metadata untouched. *)
Theorem loader_chunks_mirror_units w p et doc0 docs :
  os_path_exists w p = true →
  str_lower w (path_suffix w p) ≠ lit ".txt" →
  str_lower w et = lit "chunks" →
  docling_load w p DOC_CHUNKS = Ok (doc0 :: docs) →
  ∃ cs, chunks (process_document w p et) = Some cs
        ∧ length cs = S (length docs)
        ∧ map content cs = map page_content (doc0 :: docs)
        ∧ map chunk_metadata cs = map doc_metadata (doc0 :: docs).
Proof.
  intros Hex Hext Hmode Hload.
  pose proof (export_mode_chunks w et Hmode) as Hm.
  rewrite (process_loader w p et doc0 docs), Hm by (by rewrite ?Hm).
  eexists. split; [done|].
  by rewrite doc_chunks_length, doc_chunks_contents, doc_chunks_metadata.
Qed.

(** In chunk mode the first unit's metadata wins: each of its entries is in
    the result's metadata as it is, also under the names of the four fields
    the service writes, which show only under names that unit leaves free. *)
Theorem loader_chunks_metadata_precedence w p et doc0 docs :
  os_path_exists w p = true →
  str_lower w (path_suffix w p) ≠ lit ".txt" →
  str_lower w et = lit "chunks" →
  docling_load w p DOC_CHUNKS = Ok (doc0 :: docs) →
  let r := process_document w p et in
  (∀ key v, doc_metadata doc0 !! key = Some v → metadata r !! key = Some v)
  ∧ (∀ key, doc_metadata doc0 !! key = None →
            metadata r !! key
            = chunk_fields (S (length docs)) (length (total_content (doc0 :: docs)))
                !! key).
Proof.
  intros Hex Hext Hmode Hload. simpl.
  pose proof (export_mode_chunks w et Hmode) as Hm.
  rewrite (process_loader w p et doc0 docs), Hm by (by rewrite ?Hm).
  cbn [metadata]. rewrite doc_chunks_length. split.
  - intros key v Hv. by apply lookup_union_Some_l.
  - intros key Hnone. by rewrite lookup_union_r.
Qed.

Lemma total_content_join docs :
  docs ≠ [] →
  total_content docs = join [nl; nl] (map page_content docs) ++ [nl; nl].
Proof.
  induction docs as [|d docs IH]; [done|]. intros _.
  destruct docs as [|d' docs]; [done|].
  change (map page_content (d :: d' :: docs))
    with (page_content d :: page_content d' :: map page_content docs).
  rewrite join_cons. simpl total_content in *. rewrite IH by done.
  by rewrite <- !app_assoc.
Qed.

(** The content of a chunk-mode result is what markdown mode would make of
    the same units, stripped of surrounding whitespace. *)
Theorem loader_chunks_content_is_stripped_markdown w p et doc0 docs :
  os_path_exists w p = true →
  str_lower w (path_suffix w p) ≠ lit ".txt" →
  str_lower w et = lit "chunks" →
  docling_load w p DOC_CHUNKS = Ok (doc0 :: docs) →
  markdown_content (process_document w p et)
  = strip (join [nl; nl] (map page_content (doc0 :: docs))).
Proof.
  intros Hex Hext Hmode Hload.
  pose proof (export_mode_chunks w et Hmode) as Hm.
  rewrite (process_loader w p et doc0 docs), Hm by (by rewrite ?Hm).
  cbn [markdown_content]. rewrite total_content_join by done.
  apply strip_app_space_r. repeat constructor.
Qed.

End ResultFacts.

(** ** More on the endpoints *)

Section EndpointFacts.

Ltac lit_ne := let H := fresh in intros H; vm_compute in H; discriminate.

(** The handler once validation has passed and the temporary file exists. *)
Lemma endpoint_processing w file et name tmp :
  filename file = Some name →
  name ≠ [] →
  str_lower w (path_suffix w name) ∈ supported_formats →
  tmp_create w (str_lower w (path_suffix w name)) = Ok tmp →
  process_document_endpoint w file et =
    let w1 := put_file w tmp [] in
    let '(w2, resp) :=
      match upload_read file with
      | Raise e => (w1, HTTPException 500 (lit "Error processing document: " ++ exn_str e))
      | Ok data =>
          match write_error w tmp data with
          | Some e =>
              (w1, HTTPException 500 (lit "Error processing document: " ++ exn_str e))
          | None =>
              (put_file w1 tmp data,
               Returned (process_document (put_file w1 tmp data) tmp et))
          end
      end in
    (match unlink_error w tmp with Some _ => w2 | None => remove_file w2 tmp end, resp).
Proof.
  intros Hname Hne Hfmt Htmp. unfold process_document_endpoint.
  rewrite Hname. destruct name as [|c name]; [done|].
  rewrite bool_decide_eq_true_2 by done.
  unfold named_temporary_file, mbind, outcome_bind. rewrite Htmp. cbv zeta.
  destruct (upload_read file) as [data|e].
  - unfold temp_write. simpl write_error. destruct (write_error w tmp data).
    + unfold os_unlink. rewrite put_file_exists. simpl unlink_error.
      by destruct (unlink_error w tmp).
    + unfold os_unlink. rewrite put_file_exists. simpl unlink_error.
      by destruct (unlink_error w tmp).
  - unfold os_unlink. rewrite put_file_exists. simpl unlink_error.
    by destruct (unlink_error w tmp).
Qed.

(** An upload is answered with HTTP 400 exactly when it has no file name or
    its extension is not one that [/supported-formats] lists; nothing is then
    created or changed on disk. *)
Theorem upload_rejected_iff w file et :
  ((∃ detail, (process_document_endpoint w file et).2 = HTTPException 400 detail)
   ↔ (filename file = None ∨ filename file = Some []
      ∨ ∃ name, filename file = Some name
                ∧ str_lower w (path_suffix w name)
                  ∉ info_supported_formats get_supported_formats))
  ∧ ((∃ detail, (process_document_endpoint w file et).2 = HTTPException 400 detail)
     → (process_document_endpoint w file et).1 = w).
Proof.
  change (info_supported_formats get_supported_formats) with supported_formats.
  destruct (filename file) as [[|c name]|] eqn:Hname.
  - unfold process_document_endpoint. rewrite Hname. simpl.
    split; [|done]. split; [by right; left|by eexists].
  - destruct (decide (str_lower w (path_suffix w (c :: name)) ∈ supported_formats))
      as [Hin|Hout].
    + destruct (tmp_create w (str_lower w (path_suffix w (c :: name))))
        as [tmp|e] eqn:Htmp.
      * rewrite (endpoint_processing w file et (c :: name) tmp) by done. cbv zeta.
        destruct (upload_read file) as [data|e]; [destruct (write_error w tmp data)|];
          cbn [fst snd];
          (split; [split; [intros [detail Hd]; by inversion Hd|intros [[=]|[[=]|(n & [= <-] & Hn)]]; done]
                  |intros [detail Hd]; by inversion Hd]).
      * assert (Hrun : process_document_endpoint w file et = (w, Unhandled e)).
        { unfold process_document_endpoint. rewrite Hname.
          rewrite bool_decide_eq_true_2 by done.
          unfold named_temporary_file, mbind, outcome_bind. by rewrite Htmp. }
        rewrite Hrun. simpl. split; [|done]. split; [by intros [? [=]]|].
        intros [[=]|[[=]|(n & [= <-] & Hn)]]. done.
    + assert (Hrun : process_document_endpoint w file et
                     = (w, HTTPException 400
                             (unsupported_detail
                                (str_lower w (path_suffix w (c :: name)))))).
      { unfold process_document_endpoint. rewrite Hname.
        by rewrite bool_decide_eq_false_2 by done. }
      rewrite Hrun. simpl. split; [|done]. split; [|by eexists].
      intros _. right; right. by exists (c :: name).
  - unfold process_document_endpoint. rewrite Hname. simpl.
    split; [|done]. split; [by left|by eexists].
Qed.

(** A failure of the processing itself never becomes an HTTP error: when the
    upload was stored and the loader raises, the handler returns a result
    with [success] false that carries the exception's text. *)
Theorem upload_loader_failure_in_body w file et name tmp data e :
  filename file = Some name →
  name ≠ [] →
  str_lower w (path_suffix w name) ∈ supported_formats →
  tmp_create w (str_lower w (path_suffix w name)) = Ok tmp →
  upload_read file = Ok data →
  write_error w tmp data = None →
  str_lower w (path_suffix w tmp) ≠ lit ".txt" →
  docling_load w tmp (export_mode_of w et) = Raise e →
  (process_document_endpoint w file et).2
  = Returned {| success := false; markdown_content := []; metadata := ∅;
                chunks := None; error := Some (exn_str e) |}.
Proof.
  intros Hname Hne Hfmt Htmp Hread Hwrite Hext Hload.
  rewrite (endpoint_processing w file et name tmp) by done. cbv zeta.
  rewrite Hread, Hwrite. simpl. f_equal.
  apply raised_error_result, raised_loader; [apply put_file_exists|done|done].
Qed.

(** An uploaded text file that was stored and that text mode reads back as
    [txt] (the bytes decoded, line endings translated) gives a successful
    result whose content is [txt], not necessarily the characters as sent;
    the metadata gives the size of the upload in bytes; in chunk mode the
    chunks are those of [txt], named after the temporary file. *)
Theorem upload_txt_result w file et name tmp data txt :
  filename file = Some name →
  name ≠ [] →
  str_lower w (path_suffix w name) = lit ".txt" →
  tmp_create w (lit ".txt") = Ok tmp →
  str_lower w (path_suffix w tmp) = lit ".txt" →
  upload_read file = Ok data →
  write_error w tmp data = None →
  decode_text w data = Ok txt →
  ∃ r, (process_document_endpoint w file et).2 = Returned r
       ∧ success r = true
       ∧ markdown_content r = txt
       ∧ metadata r !! lit "file_size" = Some (VInt (Z.of_nat (length data)))
       ∧ chunks r = (if bool_decide (str_lower w et = lit "chunks")
                     then Some (Chunker.txt_chunks tmp txt) else None).
Proof.
  intros Hname Hne Hext Htmp Hext' Hread Hwrite Hdec.
  rewrite (endpoint_processing w file et name tmp);
    [|done|done|rewrite Hext; vm_compute; set_solver|by rewrite Hext].
  cbv zeta. rewrite Hread, Hwrite. simpl. eexists. split; [done|].
  rewrite (process_txt _ tmp et txt (length data)).
  - simpl str_lower.
    destruct (bool_decide (str_lower w et = lit "chunks"));
      cbn [success markdown_content metadata chunks];
      repeat split; unfold txt_metadata;
      repeat (rewrite lookup_insert_eq || rewrite lookup_insert_ne by lit_ne);
      done.
  - apply put_file_exists.
  - done.
  - simpl. by rewrite bool_decide_eq_true_2.
  - simpl. by rewrite bool_decide_eq_true_2.
Qed.

(** An upload is answered with HTTP 500 exactly when, the temporary file
    being there, reading the upload or writing it to the file raises; the
    detail then carries the exception's text. *)
Theorem upload_http_500_iff w file et name tmp :
  filename file = Some name →
  name ≠ [] →
  str_lower w (path_suffix w name) ∈ supported_formats →
  tmp_create w (str_lower w (path_suffix w name)) = Ok tmp →
  ∀ detail,
    (process_document_endpoint w file et).2 = HTTPException 500 detail
    ↔ ∃ e, detail = lit "Error processing document: " ++ exn_str e
           ∧ (upload_read file = Raise e
              ∨ ∃ data, upload_read file = Ok data
                        ∧ write_error w tmp data = Some e).
Proof.
  intros Hname Hne Hfmt Htmp detail.
  rewrite (endpoint_processing w file et name tmp) by done. cbv zeta.
  destruct (upload_read file) as [data|e]; simpl.
  - destruct (write_error w tmp data) as [e|] eqn:Hw; simpl.
    + split.
      * intros [= <-]. exists e. split; [done|]. right. by exists data.
      * intros (e' & -> & [[=]|(data' & [= <-] & Hw')]). congruence.
    + split; [done|].
      intros (e' & _ & [[=]|(data' & [= <-] & Hw')]). congruence.
  - split.
    + intros [= <-]. exists e. split; [done|]. by left.
    + by intros (e' & -> & [[= <-]|(data' & [=] & _)]).
Qed.

End EndpointFacts.

(** ** The health poll and the start of the service *)

Section StartupFacts.

Import Startup.

(** As long as the requests fail, the loop sends one and sleeps 2 seconds. *)
Lemma poll_skip probe_at m k : ∀ i remaining,
  k < remaining →
  (Z.of_nat (i + k) < m)%Z →
  (∀ j, i ≤ j < i + k → attempt (probe_at j) = Retry) →
  poll probe_at m i remaining
  = (waits k ++ (poll probe_at m (i + k) (remaining - k)).1,
     (poll probe_at m (i + k) (remaining - k)).2).
Proof.
  induction k as [|k IH]; intros i remaining Hk Hm Hretry.
  - rewrite Nat.add_0_r, Nat.sub_0_r. simpl. by destruct (poll _ _ _ _).
  - destruct remaining as [|remaining]; [lia|]. simpl poll at 1.
    rewrite (Hretry i) by lia.
    assert (Hwait : (Z.of_nat i <? m - 1)%Z = true) by (apply Z.ltb_lt; lia).
    rewrite Hwait, (IH (S i) remaining) by (try lia; intros j Hj; apply Hretry; lia).
    replace (S i + k) with (i + S k) by lia.
    replace (S remaining - S k) with (remaining - k) by lia. done.
Qed.

(** The run up to the first request that does not fail with a retry. *)
Lemma poll_first_stop probe_at m k :
  (Z.of_nat k < m)%Z →
  (∀ j, j < k → attempt (probe_at j) = Retry) →
  attempt (probe_at k) ≠ Retry →
  check_service_health probe_at m
  = (waits k ++ [Get],
     match attempt (probe_at k) with
     | Healthy => Ok true
     | Escapes e => Raise e
     | Retry => Ok false
     end).
Proof.
  intros Hk Hretry Hstop. unfold check_service_health.
  rewrite (poll_skip probe_at m k 0) by (try lia; intros j Hj; apply Hretry; lia).
  destruct (Z.to_nat m - k) as [|r] eqn:Hr; [lia|]. simpl.
  by destruct (attempt (probe_at k)).
Qed.

Lemma poll_all_retry probe_at m : ∀ remaining i,
  Z.of_nat (i + remaining) = m →
  (∀ j, i ≤ j < i + remaining → attempt (probe_at j) = Retry) →
  poll probe_at m i remaining
  = (match remaining with 0 => [] | S r => waits r ++ [Get] end, Ok false).
Proof.
  induction remaining as [|r IH]; intros i Hm Hretry; [done|].
  simpl poll. rewrite (Hretry i) by lia.
  rewrite (IH (S i)) by (try lia; intros j Hj; apply Hretry; lia).
  destruct r as [|r].
  - assert (Hwait : (Z.of_nat i <? m - 1)%Z = false) by (apply Z.ltb_ge; lia).
    by rewrite Hwait.
  - assert (Hwait : (Z.of_nat i <? m - 1)%Z = true) by (apply Z.ltb_lt; lia).
    by rewrite Hwait.
Qed.

Lemma poll_true probe_at m : ∀ remaining i,
  (poll probe_at m i remaining).2 = Ok true →
  ∃ k, i ≤ k < i + remaining
       ∧ attempt (probe_at k) = Healthy
       ∧ ∀ j, i ≤ j < k → attempt (probe_at j) = Retry.
Proof.
  induction remaining as [|r IH]; intros i; [done|]. simpl poll.
  destruct (attempt (probe_at i)) as [| |e] eqn:Hi.
  - intros _. exists i. split; [lia|]. split; [done|]. intros j Hj. lia.
  - destruct (poll probe_at m (S i) r) as [later result] eqn:Hp. simpl.
    intros ->. destruct (IH (S i)) as (k & Hk & Hh & Hr); [by rewrite Hp|].
    exists k. split; [lia|]. split; [done|]. intros j Hj.
    destruct (decide (j = i)) as [->|]; [done|]. apply Hr. lia.
  - done.
Qed.

(** The health check reports success exactly when, within [max_retries]
    requests, one is answered 200 with a JSON object and every request before
    it failed quietly; it has then sent that many requests, with 2 seconds of
    sleep after each one but the last. *)
Theorem health_check_true_iff probe_at max_retries :
  (check_service_health probe_at max_retries).2 = Ok true
  ↔ ∃ k, (Z.of_nat k < max_retries)%Z
         ∧ attempt (probe_at k) = Healthy
         ∧ (∀ j, j < k → attempt (probe_at j) = Retry)
         ∧ (check_service_health probe_at max_retries).1 = waits k ++ [Get].
Proof.
  split.
  - intros Ht. pose proof Ht as (k & Hk & Hh & Hr)%poll_true.
    exists k. split; [lia|]. split; [done|]. split; [intros j Hj; apply Hr; lia|].
    rewrite (poll_first_stop probe_at max_retries k);
      [done|lia|intros j Hj; apply Hr; lia|by rewrite Hh].
  - intros (k & Hk & Hh & Hr & _).
    rewrite (poll_first_stop probe_at max_retries k) by (done || by rewrite Hh).
    by rewrite Hh.
Qed.

(** When none of the [max_retries] requests succeeds, the health check
    reports failure after exactly that many requests, sleeping 2 seconds
    between them but not after the last one; with no retries allowed it sends
    nothing. *)
Theorem health_check_gives_up probe_at max_retries :
  (∀ j, (Z.of_nat j < max_retries)%Z → attempt (probe_at j) = Retry) →
  check_service_health probe_at max_retries
  = (match Z.to_nat max_retries with 0 => [] | S r => waits r ++ [Get] end, Ok false).
Proof.
  intros Hretry. unfold check_service_health.
  destruct (decide (max_retries < 0)%Z) as [Hneg|Hpos].
  - by replace (Z.to_nat max_retries) with 0 by lia.
  - apply poll_all_retry; [lia|]. intros j Hj. apply Hretry. lia.
Qed.

(** The health check only sends requests and sleeps. *)
Lemma poll_events probe_at m : ∀ remaining i,
  Forall (λ ev, ev = Get ∨ ev = Sleep 2) (poll probe_at m i remaining).1.
Proof.
  induction remaining as [|r IH]; intros i; simpl; [constructor|].
  destruct (attempt (probe_at i)); simpl;
    [constructor; [by left|constructor]| |constructor; [by left|constructor]].
  specialize (IH (S i)). destruct (poll probe_at m (S i) r) as [later result].
  simpl in *. destruct (Z.of_nat i <? m - 1)%Z; simpl.
  - constructor; [by left|]. constructor; [by right|]. done.
  - constructor; [by left|]. done.
Qed.

Lemma poll_no_child_events probe_at m :
  (Spawn ∉ (check_service_health probe_at m).1)
  ∧ (Terminate ∉ (check_service_health probe_at m).1).
Proof.
  pose proof (poll_events probe_at m (Z.to_nat m) 0) as Hev.
  rewrite Forall_forall in Hev.
  split; intros [?|?]%Hev; discriminate.
Qed.

Lemma poll_shape probe_at m : ∀ remaining i,
  match remaining with
  | 0 => (poll probe_at m i remaining).1 = []
  | S r => Z.of_nat (i + remaining) = m →
           ∃ k, k ≤ r ∧ (poll probe_at m i remaining).1 = waits k ++ [Get]
  end.
Proof.
  induction remaining as [|r IH]; intros i; [done|]. intros Hm. simpl poll.
  destruct (attempt (probe_at i)).
  - exists 0. split; [lia|done].
  - specialize (IH (S i)). destruct r as [|r].
    + exists 0. split; [lia|].
      assert (Hwait : (Z.of_nat i <? m - 1)%Z = false) by (apply Z.ltb_ge; lia).
      rewrite Hwait. simpl. done.
    + destruct IH as (k & Hk & Hshape); [lia|].
      exists (S k). split; [lia|].
      assert (Hwait : (Z.of_nat i <? m - 1)%Z = true) by (apply Z.ltb_lt; lia).
      rewrite Hwait. destruct (poll probe_at m (S i) (S r)) as [later result].
      simpl in *. by rewrite Hshape.
  - exists 0. split; [lia|done].
Qed.

(** However a health check ends, requests and sleeps alternate in what it
    did: a request, 2 seconds of sleep, the next request, and so on, ending
    with a request; there is no sleep before the first request or after the
    last, and at most [max_retries] requests are sent (none at all when
    [max_retries] is not positive). *)
Theorem health_check_trace probe_at max_retries :
  ((max_retries ≤ 0)%Z ∧ (check_service_health probe_at max_retries).1 = [])
  ∨ (∃ k, (Z.of_nat k < max_retries)%Z
          ∧ (check_service_health probe_at max_retries).1 = waits k ++ [Get]).
Proof.
  unfold check_service_health.
  pose proof (poll_shape probe_at max_retries (Z.to_nat max_retries) 0) as Hshape.
  destruct (Z.to_nat max_retries) as [|r] eqn:Hr.
  - left. split; [lia|done].
  - right. destruct Hshape as (k & Hk & Ht); [lia|].
    exists k. split; [lia|done].
Qed.

(** The run of [start_service] when a request is answered in time. *)
Lemma start_service_healthy h port k :
  dependencies_installed h = true →
  port_setting h = Ok port →
  service_file_exists h = true →
  popen_error h = None →
  k < 30 →
  attempt (probe_at h k) = Healthy →
  (∀ j, j < k → attempt (probe_at h j) = Retry) →
  start_service h = (Spawn :: Sleep 3 :: waits k ++ [Get], Ok true).
Proof.
  intros Hdeps Hport Hfile Hpopen Hk Hh Hretry. unfold start_service.
  rewrite Hdeps, Hport, Hfile, Hpopen. simpl negb. cbv iota.
  rewrite (poll_first_stop (probe_at h) 30 k) by (lia || done || by rewrite Hh).
  by rewrite Hh.
Qed.

(** [start_service] reports success exactly when the dependencies are
    there, the port setting is a number, the service file exists, the child
    process starts and one of the 30 requests is answered 200 with a JSON
    object after only quiet failures. It has then started the child, slept 3
    seconds, polled up to that request, and not terminated the child. *)
Theorem start_service_true_iff h :
  ((start_service h).2 = Ok true
   ↔ dependencies_installed h = true
     ∧ (∃ port, port_setting h = Ok port)
     ∧ service_file_exists h = true
     ∧ popen_error h = None
     ∧ ∃ k, k < 30 ∧ attempt (probe_at h k) = Healthy
            ∧ ∀ j, j < k → attempt (probe_at h j) = Retry)
  ∧ ∀ port k,
      dependencies_installed h = true →
      port_setting h = Ok port →
      service_file_exists h = true →
      popen_error h = None →
      k < 30 →
      attempt (probe_at h k) = Healthy →
      (∀ j, j < k → attempt (probe_at h j) = Retry) →
      start_service h = (Spawn :: Sleep 3 :: waits k ++ [Get], Ok true).
Proof.
  split; [split|].
  - unfold start_service.
    destruct (dependencies_installed h); simpl; [|done].
    destruct (port_setting h) as [port|e]; simpl; [|done].
    destruct (service_file_exists h); simpl; [|done].
    destruct (popen_error h); simpl; [done|].
    destruct (check_service_health (probe_at h) 30) as [polled [[|]|e]] eqn:Hc;
      simpl; [|done|done].
    intros _. split; [done|]. split; [by eexists|]. split; [done|]. split; [done|].
    assert (Ht : (poll (probe_at h) 30 0 30).2 = Ok true).
    { unfold check_service_health in Hc. change (Z.to_nat 30) with 30 in Hc.
      by rewrite Hc. }
    apply poll_true in Ht as (k & Hk & Hh & Hr).
    exists k. split; [lia|]. split; [done|]. intros j Hj. apply Hr. lia.
  - intros (Hdeps & [port Hport] & Hfile & Hpopen & k & Hk & Hh & Hr).
    by rewrite (start_service_healthy h port k).
  - intros port k. apply start_service_healthy.
Qed.

(** When the child has started and none of the 30 requests succeeds,
    [start_service] terminates the child as its last step and reports
    failure, after 30 requests and 61 seconds of sleep. *)
Theorem start_service_terminates_unhealthy_child h port :
  dependencies_installed h = true →
  port_setting h = Ok port →
  service_file_exists h = true →
  popen_error h = None →
  (∀ j, j < 30 → attempt (probe_at h j) = Retry) →
  (start_service h).2 = Ok false
  ∧ last (start_service h).1 = Some Terminate
  ∧ head (start_service h).1 = Some Spawn
  ∧ gets (start_service h).1 = 30
  ∧ slept (start_service h).1 = 61.
Proof.
  intros Hdeps Hport Hfile Hpopen Hretry. unfold start_service.
  rewrite Hdeps, Hport, Hfile, Hpopen. simpl negb. cbv iota.
  assert (Hpoll : check_service_health (probe_at h) 30
                  = (waits 29 ++ [Get], Ok false)).
  { unfold check_service_health. change (Z.to_nat 30) with 30.
    rewrite (poll_all_retry (probe_at h) 30 30 0); [done|done|].
    intros j Hj. apply Hretry. lia. }
  rewrite Hpoll. by vm_compute.
Qed.

(** When the handling of a 200 answer raises something other than a
    request error, [start_service] still reports failure instead of raising,
    but the child it has started is not terminated. *)
Theorem start_service_leaves_child_on_probe_error h port k e :
  dependencies_installed h = true →
  port_setting h = Ok port →
  service_file_exists h = true →
  popen_error h = None →
  k < 30 →
  (∀ j, j < k → attempt (probe_at h j) = Retry) →
  attempt (probe_at h k) = Escapes e →
  (start_service h).2 = Ok false
  ∧ Spawn ∈ (start_service h).1
  ∧ Terminate ∉ (start_service h).1.
Proof.
  intros Hdeps Hport Hfile Hpopen Hk Hretry Hesc. unfold start_service.
  rewrite Hdeps, Hport, Hfile, Hpopen. simpl negb. cbv iota.
  pose proof (poll_no_child_events (probe_at h) 30) as [_ Hte].
  rewrite (poll_first_stop (probe_at h) 30 k) in * by (lia || done || by rewrite Hesc).
  rewrite Hesc. cbn [fst snd] in *. split; [done|]. split; [by left|].
  intros [Hc|[Hc|Hc]%elem_of_cons]%elem_of_cons; [discriminate|discriminate|done].
Qed.

End StartupFacts.

(** ** More concrete runs *)

Section MoreRuns.

Import Chunker Sample Fixture Startup.

Ltac run := vm_compute; reflexivity.

Ltac txt_call := unfold txt_chunk_call; repeat split; run.

Ltac lit_ne := let H := fresh in intros H; vm_compute in H; discriminate.

Lemma short_text_single_chunk_witness :
  txt_chunk_call (machine notes two_lines [] false) notes (lit "chunks")
    two_lines (txt_chunks notes two_lines)
  ∧ length two_lines ≤ 500
  ∧ map content (txt_chunks notes two_lines)
    = (if truthy (strip two_lines) then [strip two_lines] else [])
  ∧ map chunk_id (txt_chunks notes two_lines)
    = (if truthy (strip two_lines) then [0] else []).
Proof.
  assert (Hcall : txt_chunk_call (machine notes two_lines [] false) notes
                    (lit "chunks") two_lines (txt_chunks notes two_lines))
    by txt_call.
  assert (Hlen : length two_lines ≤ 500) by (vm_compute; lia).
  split; [exact Hcall|]. split; [exact Hlen|].
  exact (short_text_single_chunk _ _ _ _ _ Hcall Hlen).
Defined.

Lemma no_chunks_iff_blank_witness :
  txt_chunk_call (machine notes blanks [] false) notes (lit "chunks") blanks
    (txt_chunks notes blanks)
  ∧ (txt_chunks notes blanks = [] ↔ all_space blanks).
Proof.
  assert (Hcall : txt_chunk_call (machine notes blanks [] false) notes
                    (lit "chunks") blanks (txt_chunks notes blanks))
    by txt_call.
  split; [exact Hcall|]. exact (no_chunks_iff_blank _ _ _ _ _ Hcall).
Defined.

Lemma chunk_count_at_most_lines_witness :
  txt_chunk_call (machine notes long_then_short [] false) notes (lit "chunks")
    long_then_short (txt_chunks notes long_then_short)
  ∧ length (txt_chunks notes long_then_short) ≤ length (split nl long_then_short).
Proof.
  assert (Hcall : txt_chunk_call (machine notes long_then_short [] false) notes
                    (lit "chunks") long_then_short (txt_chunks notes long_then_short))
    by txt_call.
  split; [exact Hcall|]. exact (chunk_count_at_most_lines _ _ _ _ _ Hcall).
Defined.

Lemma txt_chunk_metadata_witness :
  txt_chunk_call (machine notes long_then_short [] false) notes (lit "chunks")
    long_then_short (txt_chunks notes long_then_short)
  ∧ Forall (λ c,
      chunk_metadata c !! lit "chunk_index" = Some (VInt (Z.of_nat (chunk_id c)))
      ∧ chunk_metadata c !! lit "source" = Some (VStr notes)
      ∧ ∀ key, key ≠ lit "chunk_index" → key ≠ lit "source" →
               chunk_metadata c !! key = None)
      (txt_chunks notes long_then_short).
Proof.
  assert (Hcall : txt_chunk_call (machine notes long_then_short [] false) notes
                    (lit "chunks") long_then_short (txt_chunks notes long_then_short))
    by txt_call.
  split; [exact Hcall|]. exact (txt_chunk_metadata _ _ _ _ _ Hcall).
Defined.

Lemma txt_result_witness :
  success (process_document (machine notes two_lines [] false) notes (lit "Chunks"))
  = true
  ∧ metadata (process_document (machine notes two_lines [] false) notes (lit "Chunks"))
      !! lit "export_type" = Some (VStr (lit "Chunks"))
  ∧ metadata (process_document (machine notes two_lines [] false) notes (lit "Chunks"))
      !! lit "total_chunks" = Some (VInt 1).
Proof.
  destruct (txt_result (machine notes two_lines [] false) notes (lit "Chunks")
              two_lines (length two_lines))
    as (Hs & _ & _ & _ & _ & Het & _ & _ & Htc); [run|run|run|run|].
  split; [exact Hs|]. split; [exact Het|].
  rewrite Htc. run.
Defined.

Lemma txt_ignores_loader_witness :
  process_document (with_loader (machine notes two_lines [] false) broken_loader)
    notes (lit "markdown")
  = process_document (machine notes two_lines [] false) notes (lit "markdown").
Proof. apply txt_ignores_loader. run. Defined.

Lemma loader_path_ignores_file_contents_witness :
  process_document
    (with_files (machine report [] two_docs false)
       (λ _, Raise (no_such_file report)) (λ _, Raise (no_such_file report)))
    report (lit "markdown")
  = process_document (machine report [] two_docs false) report (lit "markdown").
Proof. apply loader_path_ignores_file_contents. lit_ne. Defined.

Lemma loader_markdown_result_witness :
  markdown_content
    (process_document (machine report [] two_docs false) report (lit "markdown"))
  = lit "Title" ++ [nl; nl] ++ lit "Body"
  ∧ metadata
      (process_document (machine report [] two_docs false) report (lit "markdown"))
      !! lit "total_documents" = Some (VInt 2)
  ∧ metadata
      (process_document (machine report [] two_docs false) report (lit "markdown"))
      !! lit "page" = Some (VInt 1).
Proof.
  destruct (loader_markdown_result (machine report [] two_docs false) report
              (lit "markdown")
              {| page_content := lit "Title"; doc_metadata := {[ lit "page" := VInt 1 ]} |}
              [{| page_content := lit "Body"; doc_metadata := {[ lit "page" := VInt 2 ]} |}])
    as (_ & _ & Hmd & _ & _ & Hn & _ & Hkeep); [run|lit_ne|lit_ne|run|].
  split; [exact Hmd|]. split; [exact Hn|].
  rewrite Hkeep; [run|].
  intros Hin. apply list_elem_of_In in Hin. vm_compute in Hin.
  repeat (destruct Hin as [Hin|Hin]; [discriminate|]). exact Hin.
Defined.

Lemma loader_chunks_mirror_units_witness :
  ∃ cs,
    chunks (process_document (machine report [] two_docs false) report (lit "chunks"))
    = Some cs
    ∧ length cs = 2
    ∧ map content cs = [lit "Title"; lit "Body"]
    ∧ map chunk_metadata cs
      = [ {[ lit "page" := VInt 1 ]}; {[ lit "page" := VInt 2 ]} ].
Proof.
  destruct (loader_chunks_mirror_units (machine report [] two_docs false) report
              (lit "chunks")
              {| page_content := lit "Title";
                 doc_metadata := {[ lit "page" := VInt 1 ]} |}
              [{| page_content := lit "Body";
                  doc_metadata := {[ lit "page" := VInt 2 ]} |}])
    as (cs & Hcs & Hlen & Hcontent & Hmeta); [run|lit_ne|run|run|].
  exists cs. split; [exact Hcs|]. split; [exact Hlen|].
  split; [exact Hcontent|exact Hmeta].
Defined.

(** The first unit's own [total_chunks] is reported in place of the count. *)
Lemma loader_chunks_metadata_precedence_witness :
  metadata
    (process_document (machine report [] [tagged_doc] false) report (lit "chunks"))
    !! lit "total_chunks" = Some (VInt 99)
  ∧ metadata
      (process_document (machine report [] [tagged_doc] false) report (lit "chunks"))
      !! lit "processing_method" = Some (VStr (lit "langchain_docling")).
Proof.
  destruct (loader_chunks_metadata_precedence (machine report [] [tagged_doc] false)
              report (lit "chunks") tagged_doc [])
    as [Hwins Hfree]; [run|lit_ne|run|run|].
  split.
  - apply Hwins. run.
  - rewrite Hfree; run.
Defined.

Lemma loader_chunks_content_is_stripped_markdown_witness :
  markdown_content
    (process_document (machine report [] two_docs false) report (lit "chunks"))
  = strip (join [nl; nl] (map page_content two_docs)).
Proof.
  apply (loader_chunks_content_is_stripped_markdown
           (machine report [] two_docs false) report (lit "chunks")
           {| page_content := lit "Title"; doc_metadata := {[ lit "page" := VInt 1 ]} |}
           [{| page_content := lit "Body"; doc_metadata := {[ lit "page" := VInt 2 ]} |}]);
    [run|lit_ne|run|run].
Defined.

Lemma upload_loader_failure_in_body_witness :
  (process_document_endpoint
     (with_loader (machine notes two_lines [] false) broken_loader) pdf_upload
     (lit "markdown")).2
  = Returned {| success := false; markdown_content := []; metadata := ∅;
                chunks := None; error := Some (lit "conversion failed") |}.
Proof.
  apply (upload_loader_failure_in_body
           (with_loader (machine notes two_lines [] false) broken_loader) pdf_upload
           (lit "markdown") (lit "scan.PDF") pdf_tmp
           [Byte.x25; Byte.x50; Byte.x44; Byte.x46]
           (Exception (lit "conversion failed")));
    [reflexivity|discriminate| |reflexivity|reflexivity|reflexivity|lit_ne|reflexivity].
  vm_compute. apply list_elem_of_In. simpl. tauto.
Defined.

Lemma upload_txt_result_witness :
  ∃ r,
    (process_document_endpoint text_machine crlf_upload (lit "chunks")).2 = Returned r
    ∧ success r = true
    ∧ markdown_content r = lit "a" ++ [nl] ++ lit "b"
    ∧ metadata r !! lit "file_size" = Some (VInt 4)
    ∧ chunks r = Some (txt_chunks upload_tmp (lit "a" ++ [nl] ++ lit "b")).
Proof.
  apply (upload_txt_result text_machine crlf_upload (lit "chunks") (lit "win.txt")
           upload_tmp [Byte.x61; Byte.x0d; Byte.x0a; Byte.x62]
           (lit "a" ++ [nl] ++ lit "b"));
    [reflexivity|discriminate|run|reflexivity|run|reflexivity|reflexivity|run].
Defined.

Lemma upload_http_500_iff_witness :
  (process_document_endpoint (machine notes two_lines [] false) broken_upload
     (lit "markdown")).2
  = HTTPException 500 (lit "Error processing document: client disconnected").
Proof.
  apply (upload_http_500_iff (machine notes two_lines [] false) broken_upload
           (lit "markdown") (lit "notes.txt") upload_tmp);
    [reflexivity|discriminate| |reflexivity|].
  - vm_compute. apply list_elem_of_In. simpl. tauto.
  - exists (Exception (lit "client disconnected")). split; [run|by left].
Defined.

Lemma health_check_gives_up_witness :
  check_service_health never_up 3
  = ([Get; Sleep 2; Get; Sleep 2; Get], Ok false).
Proof. apply (health_check_gives_up never_up 3). reflexivity. Defined.

Lemma start_service_true_iff_witness :
  start_service (host up_on_third)
  = ([Spawn; Sleep 3; Get; Sleep 2; Get; Sleep 2; Get], Ok true).
Proof.
  destruct (start_service_true_iff (host up_on_third)) as [_ Hrun].
  apply (Hrun 8001%Z 2); try reflexivity; [lia|].
  intros j Hj. destruct j as [|[|j]]; [reflexivity|reflexivity|lia].
Defined.

Lemma start_service_terminates_unhealthy_child_witness :
  (start_service (host never_up)).2 = Ok false
  ∧ last (start_service (host never_up)).1 = Some Terminate
  ∧ head (start_service (host never_up)).1 = Some Spawn
  ∧ gets (start_service (host never_up)).1 = 30
  ∧ slept (start_service (host never_up)).1 = 61.
Proof.
  apply (start_service_terminates_unhealthy_child (host never_up) 8001%Z);
    reflexivity.
Defined.

Lemma start_service_leaves_child_on_probe_error_witness :
  (start_service (host garbled)).2 = Ok false
  ∧ Spawn ∈ (start_service (host garbled)).1
  ∧ Terminate ∉ (start_service (host garbled)).1.
Proof.
  apply (start_service_leaves_child_on_probe_error (host garbled) 8001%Z 0
           (Exception (lit "not a dict"))); try reflexivity; [lia|intros j Hj; lia].
Defined.

End MoreRuns.
